(** * powercache: a recency-ordered store and a TTL store

    A shallow embedding of the Go packages [powercache] (the capability
    interfaces), [powercache/ttl] (the TTL store) and [powercache/lru] (the
    recency store), with the properties their specification states.

    Conventions.
    - A method with a pointer receiver is a computation in a state monad over
      a [Machine]: the receiver's fields, the clock and the caller's own
      state.
    - Every public method takes the store's [sync.RWMutex] for its whole body
      and releases it on return ([defer]); [Do] releases the read lock before
      it takes the write lock.  The semantics below is the sequential one, in
      which a method body runs without interleaving, so lock and unlock have
      no effect on the state and are not represented.
    - Go's [error] is [option E]: [None] is [nil].
    - Go's zero value of the type parameter [V] is the section variable
      [zero]. *)

From stdpp Require Import gmap strings list fin_maps.
From Stdlib Require Import ZArith Lia.

Local Open Scope Z_scope.

(** ** Go's [time] package *)

(** Instants and durations are integer counts of nanoseconds.  [After]
    compares the monotonic readings, as Go does for two instants obtained
    from [time.Now] and [Add]. *)
Module time.

Definition Time : Type := Z.
Definition Duration : Type := Z.

Definition Add (t : Time) (d : Duration) : Time := t + d.

Definition After (t u : Time) : bool := bool_decide (u < t).

End time.

(** ** The machine the methods run on *)

(** The clock behind [time.Now]: the reading the next call returns, and how
    much time each step takes, a step being a read of the clock or a run of
    a producer.  The amounts are naturals, so readings never decrease (Go's
    monotonic clock); they may be zero, so two readings may coincide. *)
Record Clock : Type := mkClock {
  now : time.Time;
  elapse : nat -> N;
  steps : nat
}.

Definition tick (ck : Clock) : Clock :=
  mkClock (now ck + Z.of_N (elapse ck (steps ck))) (elapse ck) (S (steps ck)).

Definition advance (d : N) (ck : Clock) : Clock :=
  mkClock (now ck + Z.of_N d) (elapse ck) (steps ck).

Record Machine (C W : Type) : Type := mkMachine {
  cache : C;
  clock : Clock;
  world : W
}.
Arguments mkMachine {C W} _ _ _.
Arguments cache {C W} _.
Arguments clock {C W} _.
Arguments world {C W} _.

(** [later d s]: the machine [s] after [d] nanoseconds in which no method of
    the store ran. *)
Definition later {C W} (d : N) (s : Machine C W) : Machine C W :=
  mkMachine (cache s) (advance d (clock s)) (world s).

Definition M (C W A : Type) : Type := Machine C W -> A * Machine C W.

Definition ret {C W A} (a : A) : M C W A := fun s => (a, s).

Definition bind {C W A B} (m : M C W A) (k : A -> M C W B) : M C W B :=
  fun s => let (a, s') := m s in k a s'.

Notation "x <- m ;; k" := (bind m (fun x => k))
  (at level 100, m at next level, k at level 200, right associativity).
Notation "m ;;; k" := (bind m (fun _ => k))
  (at level 100, k at level 200, right associativity).

(** The receiver [c]. *)
Definition load {C W} : M C W C := fun s => (cache s, s).

Definition store {C W} (c : C) : M C W unit :=
  fun s => (tt, mkMachine c (clock s) (world s)).

(** [time.Now()] *)
Definition time_Now {C W} : M C W time.Time :=
  fun s => (now (clock s), mkMachine (cache s) (tick (clock s)) (world s)).

(** A caller-supplied closure [func() (V, error)]: it may read and change the
    state [W] it closes over. *)
Definition Producer (W V E : Type) : Type := W -> (V * option E) * W.

(** [fn()]: the closure runs on the caller's state, and takes its time. *)
Definition call {C W R} (fn : W -> R * W) : M C W R :=
  fun s =>
    let (r, w) := fn (world s) in (r, mkMachine (cache s) (tick (clock s)) w).

Definition eval {C W A} (m : M C W A) (s : Machine C W) : A := fst (m s).
Definition exec {C W A} (m : M C W A) (s : Machine C W) : Machine C W := snd (m s).

(** [for key, value := range data { body }] over the pairs [data] yields. *)
Fixpoint for_range {C W K V} (data : list (K * V)) (body : K -> V -> M C W unit)
  : M C W unit :=
  match data with
  | [] => ret tt
  | (key, value) :: rest => body key value ;;; for_range rest body
  end.

(** [maps.All(data)]: every pair of the map once, in an order the runtime
    picks; [pick] is that choice. *)
Definition maps_All `{Countable K} {V} (pick : list (K * V) -> list (K * V))
    (data : gmap K V) : list (K * V) :=
  pick (map_to_list data).


(** ** package powercache: the capability interfaces *)
Module powercache.

Class Cache (St K V : Type) : Type := {
  Get : K -> St -> (V * bool) * St;
  Set_ : K -> V -> St -> unit * St;
  Delete : K -> St -> unit * St
}.

Class Doable (St K V Fn Err : Type) : Type := {
  Do : K -> Fn -> St -> (V * Err) * St
}.

Class MultiSetter (St K V Order : Type) `{Countable K} : Type := {
  SetFromMap : Order -> gmap K V -> St -> unit * St;
  SetFromIter : list (K * V) -> St -> unit * St
}.

End powercache.

(** ** package ttl *)
Module ttl.
Section ttl.

Context `{Countable K} {V E W : Type}.
Variable zero : V.

Record cacheEntry : Type := mkEntry {
  value : V;
  expireAt : time.Time
}.

Record Cache : Type := mkCache {
  data : gmap K cacheEntry;
  ttl : time.Duration
}.

Definition unsafeGet (key : K) : M Cache W (V * bool) :=
  c <- load ;;
  match data c !! key with
  | None => ret (zero, false)
  | Some entry =>
      t <- time_Now ;;
      if time.After t (expireAt entry) then ret (zero, false)
      else ret (value entry, true)
  end.

Definition Get (key : K) : M Cache W (V * bool) := unsafeGet key.

Definition unsafeSet (key : K) (val : V) : M Cache W unit :=
  c <- load ;;
  t <- time_Now ;;
  store (mkCache (<[key := mkEntry val (time.Add t (ttl c))]> (data c)) (ttl c)).

Definition Set_ (key : K) (val : V) : M Cache W unit := unsafeSet key val.

Definition Delete (key : K) : M Cache W unit :=
  c <- load ;;
  store (mkCache (delete key (data c)) (ttl c)).

Definition Do (key : K) (fn : Producer W V E) : M Cache W (V * option E) :=
  r <- Get key ;;
  if snd r then ret (fst r, None) else
  r' <- unsafeGet key ;;
  if snd r' then ret (fst r', None) else
  res <- call fn ;;
  match snd res with
  | Some err => ret (fst res, Some err)
  | None => unsafeSet key (fst res) ;;; ret (fst res, None)
  end.

Definition SetFromIter (seq : list (K * V)) : M Cache W unit :=
  for_range seq (fun key val => unsafeSet key val).

Definition SetFromMap (pick : list (K * V) -> list (K * V)) (m : gmap K V)
  : M Cache W unit :=
  SetFromIter (maps_All pick m).

Definition New (d : time.Duration) : Cache := mkCache ∅ d.

(** The three [var _ powercache... = ...] assertions of the package: the
    store has the methods of each interface. *)
Definition Cache_impl : powercache.Cache (Machine Cache W) K V :=
  {| powercache.Get := Get; powercache.Set_ := Set_;
     powercache.Delete := Delete |}.

Definition Doable_impl
  : powercache.Doable (Machine Cache W) K V (Producer W V E) (option E) :=
  {| powercache.Do := Do |}.

Definition MultiSetter_impl
  : powercache.MultiSetter (Machine Cache W) K V
      (list (K * V) -> list (K * V)) :=
  {| powercache.SetFromMap := SetFromMap;
     powercache.SetFromIter := SetFromIter |}.

End ttl.
Arguments cacheEntry : clear implicits.
Arguments Cache K {_ _} V.
End ttl.

(** ** package internal/container/list *)
Module container_list.
Section container_list.

Context {T : Type}.

(** Modelled from the spec: the generic doubly linked list of
    [internal/container/list], which is not among the sources; the spec has
    it as "a black-box ordered structure supporting O(1) front-insert, O(1)
    arbitrary-element removal, and O(1) move-to-front given a node handle".
    The chain of nodes is the list of their payloads, front first. *)
Abbreviation List := (list T) (only parsing).

(** Modelled from the spec: a node handle [*list.Element[T]]: the position of
    the node in the chain and the payload [Value] read through it.  The nil
    handle is [None]. *)
Record Element : Type := mkElement {
  pos : nat;
  Value : T
}.

(** Modelled from the spec: [list.New] ("list starts empty"). *)
Definition New : List := [].

(** Modelled from the spec: [Front], the first node, nil for an empty
    list. *)
Definition Front (l : List) : option Element :=
  match l with
  | [] => None
  | x :: _ => Some (mkElement 0 x)
  end.

(** Modelled from the spec: [MoveToFront] ("move-to-front given a node
    handle"): the node leaves its place and becomes the front; the other
    nodes keep their order. *)
Definition MoveToFront (e : Element) (l : List) : List :=
  match l !! pos e with
  | Some x => x :: delete (pos e) l
  | None => l
  end.

(** Modelled from the spec: [InsertBefore v mark], a new node with payload
    [v] right before the node [mark].  The store passes [Front()] as the
    mark, which is nil on an empty list; the spec has that call as "insert a
    new node at the front" and as one that never fails, so a nil mark
    inserts at the front. *)
Definition InsertBefore (v : T) (mark : option Element) (l : List) : List :=
  match mark with
  | Some e => take (pos e) l ++ v :: drop (pos e) l
  | None => v :: l
  end.

(** Modelled from the spec: [Remove] ("removal given a node handle"): the
    node is unlinked, the others keep their order. *)
Definition Remove (e : Element) (l : List) : List := delete (pos e) l.

(** The assignment [e.Value = f(e.Value)] through a handle. *)
Definition assign (e : Element) (f : T -> T) (l : List) : List :=
  alter f (pos e) l.

End container_list.
Arguments Element : clear implicits.

(** The type of the chain, by its name in the package. *)
Abbreviation List T := (list T) (only parsing).
End container_list.

(** ** package lru *)
Module lru.
Section lru.

Context `{Countable K} {V E W : Type}.
Variable zero : V.

Record cacheEntry : Type := mkEntry {
  key : K;
  value : V
}.

Record Cache : Type := mkCache {
  entries : container_list.List cacheEntry
}.

(** The loop of [findEntry]: [cur] is the handle of the first node of
    [nodes], the chain from [cur] on; [cur.Next()] is the handle of the next
    one, nil after the last. *)
Fixpoint findEntry_from (k : K) (cur : nat) (nodes : list cacheEntry)
  : option (container_list.Element cacheEntry) :=
  match nodes with
  | [] => None
  | x :: rest =>
      if decide (key x = k) then Some (container_list.mkElement cur x)
      else findEntry_from k (S cur) rest
  end.

Definition findEntry (c : Cache) (k : K)
  : option (container_list.Element cacheEntry) :=
  match container_list.Front (entries c) with
  | None => None
  | Some root =>
      findEntry_from k (container_list.pos root)
        (drop (container_list.pos root) (entries c))
  end.

Definition unsafeGet (k : K) : M Cache W (V * bool) :=
  c <- load ;;
  match container_list.Front (entries c) with
  | None => ret (zero, false)
  | Some root =>
      match findEntry c k with
      | None => ret (zero, false)
      | Some entry =>
          store (mkCache (container_list.MoveToFront entry (entries c))) ;;;
          ret (value (container_list.Value entry), true)
      end
  end.

Definition Get (k : K) : M Cache W (V * bool) := unsafeGet k.

Definition unsafeSet (k : K) (val : V) : M Cache W unit :=
  c <- load ;;
  match findEntry c k with
  | Some entry =>
      let l := container_list.assign entry
                 (fun x => mkEntry (key x) val) (entries c) in
      store (mkCache (container_list.MoveToFront entry l))
  | None =>
      store (mkCache (container_list.InsertBefore (mkEntry k val)
                        (container_list.Front (entries c)) (entries c)))
  end.

Definition Set_ (k : K) (val : V) : M Cache W unit := unsafeSet k val.

Definition Delete (k : K) : M Cache W unit :=
  c <- load ;;
  match findEntry c k with
  | Some entry => store (mkCache (container_list.Remove entry (entries c)))
  | None => ret tt
  end.

Definition SetFromIter (seq : list (K * V)) : M Cache W unit :=
  for_range seq (fun k v => unsafeSet k v).

Definition SetFromMap (pick : list (K * V) -> list (K * V)) (m : gmap K V)
  : M Cache W unit :=
  SetFromIter (maps_All pick m).

Definition Do (k : K) (fn : Producer W V E) : M Cache W (V * option E) :=
  r <- Get k ;;
  if snd r then ret (fst r, None) else
  r' <- unsafeGet k ;;
  if snd r' then ret (fst r', None) else
  res <- call fn ;;
  match snd res with
  | Some err => ret (fst res, Some err)
  | None => unsafeSet k (fst res) ;;; ret (fst res, None)
  end.

(** [New] has the signature of the TTL store's constructor; the duration is
    not used. *)
Definition New (ttl : time.Duration) : Cache := mkCache container_list.New.

Definition Cache_impl : powercache.Cache (Machine Cache W) K V :=
  {| powercache.Get := Get; powercache.Set_ := Set_;
     powercache.Delete := Delete |}.

Definition Doable_impl
  : powercache.Doable (Machine Cache W) K V (Producer W V E) (option E) :=
  {| powercache.Do := Do |}.

Definition MultiSetter_impl
  : powercache.MultiSetter (Machine Cache W) K V
      (list (K * V) -> list (K * V)) :=
  {| powercache.SetFromMap := SetFromMap;
     powercache.SetFromIter := SetFromIter |}.

End lru.
Arguments cacheEntry : clear implicits.
Arguments Cache : clear implicits.
End lru.

(** * Properties *)

(** ** The clock and the monad *)

Lemma After_true t u : time.After t u = true <-> u < t.
Proof. unfold time.After. apply bool_decide_eq_true. Qed.

Lemma After_false t u : time.After t u = false <-> t <= u.
Proof. unfold time.After. rewrite bool_decide_eq_false. lia. Qed.

Lemma now_tick ck : now ck <= now (tick ck).
Proof. unfold tick; simpl. lia. Qed.

Lemma now_advance d ck : now (advance d ck) = now ck + Z.of_N d.
Proof. reflexivity. Qed.

Lemma cache_later {C W} d (s : Machine C W) : cache (later d s) = cache s.
Proof. reflexivity. Qed.

Lemma world_later {C W} d (s : Machine C W) : world (later d s) = world s.
Proof. reflexivity. Qed.

Lemma now_later {C W} d (s : Machine C W) :
  now (clock (later d s)) = now (clock s) + Z.of_N d.
Proof. reflexivity. Qed.

Lemma for_range_app {C W K V} (l1 l2 : list (K * V)) body (s : Machine C W) :
  for_range (l1 ++ l2) body s = for_range l2 body (exec (for_range l1 body) s).
Proof.
  revert s. induction l1 as [|[k v] l1 IH]; intros s; [reflexivity|].
  simpl. unfold exec, bind in *. simpl.
  destruct (body k v s) as [u s']. apply IH.
Qed.

Lemma for_range_cons {C W K V} k v (l : list (K * V)) body (s : Machine C W) :
  exec (for_range ((k, v) :: l) body) s
  = exec (for_range l body) (exec (body k v) s).
Proof. unfold exec. simpl. unfold bind. destruct (body k v s); reflexivity. Qed.

Lemma for_range_snoc {C W K V} (l1 l2 : list (K * V)) body (s : Machine C W) :
  exec (for_range (l1 ++ l2) body) s
  = exec (for_range l2 body) (exec (for_range l1 body) s).
Proof. unfold exec at 1 2. rewrite for_range_app. reflexivity. Qed.


(** In a list of pairs without a repeated key, a pair splits the list into
    what comes before it and what comes after, and its key is in neither. *)
Lemma split_at_key {K V} (l : list (K * V)) k v :
  NoDup l.*1 -> (k, v) ∈ l ->
  exists l1 l2, l = l1 ++ (k, v) :: l2 /\ (k ∉ l1.*1) /\ (k ∉ l2.*1).
Proof.
  intros Hnd Hin. apply list_elem_of_split in Hin as (l1 & l2 & ->).
  exists l1, l2. split; [reflexivity|].
  rewrite fmap_app, fmap_cons in Hnd. simpl in Hnd.
  apply NoDup_app in Hnd as (_ & Hdis & Hnd2).
  apply NoDup_cons in Hnd2 as [Hk _]. split; [|exact Hk].
  intros Hk1. apply (Hdis k Hk1). left.
Qed.

Lemma run_pair {C W A} (m : M C W A) (s : Machine C W) :
  m s = (eval m s, exec m s).
Proof. unfold eval, exec. destruct (m s); reflexivity. Qed.

Ltac run :=
  unfold eval, exec, bind, ret, load, store, time_Now, call in *; simpl in *.

(** ** The TTL store *)
Module ttl_facts.
Section ttl_facts.

Context `{Countable K} {V E W : Type}.
Variable zero : V.

Implicit Types (s : Machine (ttl.Cache K V) W) (k : K) (v : V).

Lemma ttl_eval_Get s k :
  eval (ttl.Get zero k) s =
  match ttl.data (cache s) !! k with
  | None => (zero, false)
  | Some e => if time.After (now (clock s)) (ttl.expireAt e) then (zero, false)
              else (ttl.value e, true)
  end.
Proof.
  unfold ttl.Get, ttl.unsafeGet. run.
  destruct (ttl.data (cache s) !! k) as [e|]; simpl; [|reflexivity].
  destruct (time.After _ _); reflexivity.
Qed.

Lemma cache_Get s k : cache (exec (ttl.Get zero k) s) = cache s.
Proof.
  unfold ttl.Get, ttl.unsafeGet. run.
  destruct (ttl.data (cache s) !! k) as [e|]; simpl; [|reflexivity].
  destruct (time.After _ _); reflexivity.
Qed.

Lemma world_Get s k : world (exec (ttl.Get zero k) s) = world s.
Proof.
  unfold ttl.Get, ttl.unsafeGet. run.
  destruct (ttl.data (cache s) !! k) as [e|]; simpl; [|reflexivity].
  destruct (time.After _ _); reflexivity.
Qed.

Lemma now_Get s k : now (clock s) <= now (clock (exec (ttl.Get zero k) s)).
Proof.
  unfold ttl.Get, ttl.unsafeGet. run.
  destruct (ttl.data (cache s) !! k) as [e|]; simpl; [|lia].
  destruct (time.After _ _); simpl; lia.
Qed.

Lemma exec_Set s k v :
  exec (ttl.Set_ k v) s =
  mkMachine
    (ttl.mkCache
       (<[k := ttl.mkEntry v (now (clock s) + ttl.ttl (cache s))]>
          (ttl.data (cache s)))
       (ttl.ttl (cache s)))
    (tick (clock s)) (world s).
Proof. reflexivity. Qed.

(** A miss stays a miss as time passes. *)
Lemma Get_miss_mono s s' k :
  cache s' = cache s -> now (clock s) <= now (clock s') ->
  snd (eval (ttl.Get zero k) s) = false ->
  eval (ttl.Get zero k) s' = (zero, false).
Proof.
  rewrite !ttl_eval_Get. intros -> Hle.
  destruct (ttl.data (cache s) !! k) as [e|]; [|reflexivity].
  destruct (time.After (now (clock s)) _) eqn:Ht; simpl; [|discriminate].
  intros _. apply After_true in Ht.
  assert (time.After (now (clock s')) (ttl.expireAt e) = true) as ->;
    [|reflexivity].
  apply After_true. lia.
Qed.

Lemma Get_twice_miss s k :
  snd (eval (ttl.Get zero k) s) = false ->
  eval (ttl.unsafeGet zero k) (exec (ttl.Get zero k) s) = (zero, false).
Proof.
  intros Hmiss. apply (Get_miss_mono s); auto using cache_Get, now_Get.
Qed.

(** The fast path of [Do]. *)
Lemma ttl_Do_hit s k (fn : Producer W V E) :
  snd (eval (ttl.Get zero k) s) = true ->
  ttl.Do zero k fn s
  = ((fst (eval (ttl.Get zero k) s), None), exec (ttl.Get zero k) s).
Proof.
  intros Hhit. unfold ttl.Do, bind at 1.
  rewrite (run_pair (ttl.Get zero k) s), Hhit. reflexivity.
Qed.

(** The slow path of [Do]: both lookups miss, the producer runs on the
    caller's state, and only a success is written. *)
Lemma ttl_Do_miss s k (fn : Producer W V E) :
  snd (eval (ttl.Get zero k) s) = false ->
  let s2 := exec (ttl.unsafeGet zero k) (exec (ttl.Get zero k) s) in
  let sf := mkMachine (cache s) (tick (clock s2)) (snd (fn (world s))) in
  ttl.Do zero k fn s
  = match snd (fst (fn (world s))) with
    | Some err => ((fst (fst (fn (world s))), Some err), sf)
    | None => ((fst (fst (fn (world s))), None),
               exec (ttl.Set_ k (fst (fst (fn (world s))))) sf)
    end.
Proof.
  intros Hmiss s2 sf. pose proof (Get_twice_miss s k Hmiss) as H2.
  unfold ttl.Do, bind at 1.
  rewrite (run_pair (ttl.Get zero k) s), Hmiss.
  unfold bind at 1.
  rewrite (run_pair (ttl.unsafeGet zero k) (exec (ttl.Get zero k) s)), H2.
  simpl. fold s2.
  assert (cache s2 = cache s) as Hc.
  { exact (eq_trans (cache_Get _ k) (cache_Get s k)). }
  assert (world s2 = world s) as Hw.
  { exact (eq_trans (world_Get _ k) (world_Get s k)). }
  unfold bind, call. rewrite Hw, Hc.
  destruct (fn (world s)) as [[v [err|]] w']; simpl; [reflexivity|].
  reflexivity.
Qed.

Lemma now_Do_miss s k :
  now (clock s)
  <= now (tick (clock (exec (ttl.unsafeGet zero k) (exec (ttl.Get zero k) s)))).
Proof.
  etransitivity; [apply (now_Get s k)|].
  etransitivity; [apply (now_Get (exec (ttl.Get zero k) s) k)|].
  apply now_tick.
Qed.

(** A producer that fails: its pair is what [Do] returns, the store is as
    before, the key is still missing and the next [Do] calls its producer. *)
Lemma ttl_Do_error s k (fn : Producer W V E) v err w' :
  snd (eval (ttl.Get zero k) s) = false ->
  fn (world s) = ((v, Some err), w') ->
  let s' := exec (ttl.Do zero k fn) s in
  eval (ttl.Do zero k fn) s = (v, Some err) /\
  cache s' = cache s /\ world s' = w' /\
  forall d,
    eval (ttl.Get zero k) (later d s') = (zero, false) /\
    forall fn2 : Producer W V E,
      eval (ttl.Do zero k fn2) (later d s') = fst (fn2 w') /\
      world (exec (ttl.Do zero k fn2) (later d s')) = snd (fn2 w').
Proof.
  intros Hmiss Hfn s'. unfold s', eval, exec.
  rewrite (ttl_Do_miss s k fn Hmiss), Hfn. cbn [fst snd].
  set (sf := mkMachine (cache s) _ w').
  assert (forall d, eval (ttl.Get zero k) (later d sf) = (zero, false)) as Hm.
  { intros d. apply (Get_miss_mono s); trivial.
    rewrite now_later. pose proof (now_Do_miss s k) as Hn.
    unfold sf. cbn [clock]. lia. }
  repeat split; trivial.
  - apply Hm.
  - rewrite ttl_Do_miss by (rewrite Hm; reflexivity).
    change (world (later d sf)) with w'.
    destruct (fn2 w') as [[v2 [e2|]] w2]; reflexivity.
  - rewrite ttl_Do_miss by (rewrite Hm; reflexivity).
    change (world (later d sf)) with w'.
    destruct (fn2 w') as [[v2 [e2|]] w2]; reflexivity.
Qed.

Lemma data_Set_same s k v :
  ttl.data (cache (exec (ttl.Set_ k v) s)) !! k
  = Some (ttl.mkEntry v (now (clock s) + ttl.ttl (cache s))).
Proof. rewrite exec_Set. simpl. apply lookup_insert_eq. Qed.

(** What a later read finds under a key that was just written. *)
Lemma Get_after_write s k v t d :
  ttl.data (cache s) !! k = Some (ttl.mkEntry v t) ->
  (now (clock (later d s)) <= t -> eval (ttl.Get zero k) (later d s) = (v, true))
  /\ (t < now (clock (later d s)) ->
      eval (ttl.Get zero k) (later d s) = (zero, false)).
Proof.
  intros Hk. rewrite ttl_eval_Get, cache_later, Hk. simpl. split; intros Ht.
  - apply After_false in Ht. rewrite Ht. reflexivity.
  - apply After_true in Ht. rewrite Ht. reflexivity.
Qed.

(** *** A sequence of [Set] calls *)

Local Abbreviation Sets seq := (for_range seq (fun k v => ttl.Set_ k v)).

Lemma ttl_Sets s (seq : list (K * V)) :
  ttl.ttl (cache (exec (Sets seq) s)) = ttl.ttl (cache s).
Proof.
  revert s. induction seq as [|[k v] seq IH]; intros s; [reflexivity|].
  rewrite for_range_cons, IH. reflexivity.
Qed.


Lemma data_Sets_notin s k (seq : list (K * V)) :
  k ∉ seq.*1 ->
  ttl.data (cache (exec (Sets seq) s)) !! k = ttl.data (cache s) !! k.
Proof.
  revert s. induction seq as [|[k' v'] seq IH]; intros s Hk; [reflexivity|].
  rewrite fmap_cons, not_elem_of_cons in Hk. destruct Hk as [Hne Hk].
  rewrite for_range_cons, IH by assumption.
  rewrite exec_Set. simpl. apply lookup_insert_ne.
  intros Heq. apply Hne. symmetry. exact Heq.
Qed.

Lemma data_Sets_last s k v (l1 l2 : list (K * V)) :
  k ∉ l2.*1 ->
  ttl.data (cache (exec (Sets (l1 ++ (k, v) :: l2)) s)) !! k
  = Some (ttl.mkEntry v (now (clock (exec (Sets l1) s)) + ttl.ttl (cache s))).
Proof.
  intros Hk. rewrite for_range_snoc, for_range_cons.
  rewrite data_Sets_notin by assumption.
  rewrite exec_Set. simpl. rewrite ttl_Sets. apply lookup_insert_eq.
Qed.

(** *** Lazy expiry *)

(** C2. In a store built with ttl [T], after [Set(k, v)] at time [t0]: a
    [Get(k)] at a time strictly before [t0 + T] returns [(v, true)]; a
    [Get(k)] at a time strictly after [t0 + T] returns [(zero, false)] and
    leaves the store as it was, the entry [(v, t0 + T)] still in the map; and
    a [Set(k, v2)] after that, at time [t2], writes the entry
    [(v2, t2 + T)], which a [Get(k)] before [t2 + T] returns. *)
Theorem lazy_expiry s k v v2 (d d2 : N) :
  let T := ttl.ttl (cache s) in
  let t0 := now (clock s) in
  let s1 := later d (exec (ttl.Set_ k v) s) in
  let t1 := now (clock s1) in
  (t1 < t0 + T -> eval (ttl.Get zero k) s1 = (v, true)) /\
  (t0 + T < t1 ->
     eval (ttl.Get zero k) s1 = (zero, false) /\
     cache (exec (ttl.Get zero k) s1) = cache s1 /\
     ttl.data (cache (exec (ttl.Get zero k) s1)) !! k
       = Some (ttl.mkEntry v (t0 + T)) /\
     let s2 := later d2 (exec (ttl.Get zero k) s1) in
     let t2 := now (clock s2) in
     let s3 := exec (ttl.Set_ k v2) s2 in
     ttl.data (cache s3) !! k = Some (ttl.mkEntry v2 (t2 + T)) /\
     forall d3 : N,
       now (clock (later d3 s3)) < t2 + T ->
       eval (ttl.Get zero k) (later d3 s3) = (v2, true)).
Proof.
  intros T t0 s1 t1.
  assert (ttl.data (cache (exec (ttl.Set_ k v) s)) !! k
          = Some (ttl.mkEntry v (t0 + T))) as Hk.
  { apply data_Set_same. }
  destruct (Get_after_write _ k v (t0 + T) d Hk) as [Hlive Hdead].
  split; [intros Ht; apply Hlive; fold s1 t1; lia|].
  intros Ht. split; [apply Hdead; exact Ht|].
  split; [apply cache_Get|].
  split; [rewrite cache_Get; exact Hk|].
  intros s2 t2 s3.
  assert (ttl.data (cache s3) !! k = Some (ttl.mkEntry v2 (t2 + T))) as Hk3.
  { unfold s3. rewrite data_Set_same. unfold s2 at 2.
    rewrite cache_later, cache_Get. reflexivity. }
  split; [exact Hk3|]. intros d3 Ht3.
  apply (Get_after_write s3 k v2 (t2 + T) d3 Hk3). lia.
Qed.

(** C6. In a store built with a zero or negative ttl, a [Get(k)] whose clock
    reading is strictly later than that of the [Set(k, v)] before it returns
    [(zero, false)]. *)
Theorem nonpositive_ttl_expires_at_once s k v (d : N) :
  ttl.ttl (cache s) <= 0 ->
  now (clock s) < now (clock (later d (exec (ttl.Set_ k v) s))) ->
  eval (ttl.Get zero k) (later d (exec (ttl.Set_ k v) s)) = (zero, false).
Proof.
  intros Httl Hlater.
  assert (ttl.data (cache (exec (ttl.Set_ k v) s)) !! k
          = Some (ttl.mkEntry v (now (clock s) + ttl.ttl (cache s)))) as Hk.
  { apply data_Set_same. }
  apply (Get_after_write _ k v _ d Hk). lia.
Qed.

End ttl_facts.

(** A store of integers under string keys, and a clock that starts at [t]
    and moves by [step] nanoseconds at each reading. *)
Example lazy_expiry_witness :
  let s := mkMachine (ttl.New (K:=string) (V:=Z) 10)
             (mkClock 100 (fun _ => 3%N) 0) tt in
  eval (ttl.Get 0 "k") (later 2 (exec (ttl.Set_ "k" 7) s)) = (7, true) /\
  eval (ttl.Get 0 "k") (later 20 (exec (ttl.Set_ "k" 7) s)) = (0, false) /\
  eval (ttl.Get 0 "k")
    (later 4 (exec (ttl.Set_ "k" 8)
       (later 1 (exec (ttl.Get 0 "k") (later 20 (exec (ttl.Set_ "k" 7) s))))))
  = (8, true).
Proof.
  intros s.
  pose proof (lazy_expiry 0 s "k" 7 8 2 1) as [Hlive _].
  pose proof (lazy_expiry 0 s "k" 7 8 20 1) as [_ Hdead].
  split; [apply Hlive; vm_compute; reflexivity|].
  destruct Hdead as (Hmiss & _ & _ & _ & Hagain); [vm_compute; reflexivity|].
  split; [exact Hmiss|]. apply Hagain. vm_compute. reflexivity.
Defined.

Example nonpositive_ttl_witness :
  let s := mkMachine (ttl.New (K:=string) (V:=Z) 0)
             (mkClock 100 (fun _ => 1%N) 0) tt in
  eval (ttl.Get 0 "x") (later 0 (exec (ttl.Set_ "x" 10) s)) = (0, false).
Proof.
  intros s. apply (nonpositive_ttl_expires_at_once 0 s "x" 10 0).
  - vm_compute. discriminate.
  - vm_compute. reflexivity.
Defined.

End ttl_facts.

(** ** The recency store *)
Module lru_facts.
Section lru_facts.

Context `{Countable K} {V E W : Type}.
Variable zero : V.

Implicit Types (s : Machine (lru.Cache K V) W) (k : K) (v : V).
Implicit Types (l : list (lru.cacheEntry K V)) (x : lru.cacheEntry K V).

(** The first node with key [k], as [findEntry] scans for it. *)
Local Abbreviation first k l := (list_find (fun x => lru.key x = k) l).
Local Abbreviation keys l := (lru.key <$> l).
Local Abbreviation ents s := (lru.entries (cache s)).

Lemma findEntry_from_first k cur l :
  lru.findEntry_from k cur l
  = (fun p => container_list.mkElement (cur + fst p) (snd p)) <$> first k l.
Proof.
  revert cur. induction l as [|x l IH]; intros cur; simpl; [reflexivity|].
  destruct (decide (lru.key x = k)); simpl.
  - rewrite Nat.add_0_r. reflexivity.
  - rewrite IH. destruct (first k l) as [[i y]|]; simpl; [|reflexivity].
    rewrite Nat.add_succ_r. reflexivity.
Qed.

Lemma findEntry_first (c : lru.Cache K V) k :
  lru.findEntry c k
  = (fun p => container_list.mkElement (fst p) (snd p))
      <$> first k (lru.entries c).
Proof.
  unfold lru.findEntry. destruct c as [[|x l]]; [reflexivity|].
  simpl container_list.Front. cbv iota. simpl container_list.pos.
  rewrite drop_0. apply findEntry_from_first.
Qed.

Lemma first_key k l i x : first k l = Some (i, x) -> lru.key x = k.
Proof. intros Hf. apply list_find_Some in Hf. tauto. Qed.

Lemma first_lookup k l i x : first k l = Some (i, x) -> l !! i = Some x.
Proof. intros Hf. apply list_find_Some in Hf. tauto. Qed.

Lemma first_None k l : first k l = None <-> k ∉ keys l.
Proof.
  rewrite list_find_None, Forall_forall, list_elem_of_fmap. split.
  - intros Hall (x & -> & Hx). exact (Hall x Hx eq_refl).
  - intros Hno x Hx Hk. apply Hno. exists x. auto.
Qed.

Lemma delete_alter_same (f : lru.cacheEntry K V -> lru.cacheEntry K V) i l :
  delete i (alter f i l) = delete i l.
Proof.
  revert i. induction l as [|x l IH]; intros [|i]; simpl; try reflexivity.
  f_equal. apply IH.
Qed.

(** Taking out a node with another key does not change which payload is the
    first with key [k]. *)
Lemma first_delete_other k l i x :
  l !! i = Some x -> lru.key x <> k ->
  snd <$> first k (delete i l) = snd <$> first k l.
Proof.
  revert i. induction l as [|y l IH]; intros [|i] Hi Hne; simpl in *;
    try discriminate.
  - injection Hi as ->. rewrite decide_False by assumption.
    destruct (first k l) as [[j z]|]; reflexivity.
  - destruct (decide (lru.key y = k)); [reflexivity|].
    specialize (IH i Hi Hne).
    destruct (first k (delete i l)) as [[j z]|], (first k l) as [[j' z']|];
      simpl in *; congruence.
Qed.

Lemma MoveToFront_at l i x y :
  l !! i = Some x ->
  container_list.MoveToFront (container_list.mkElement i y) l = x :: delete i l.
Proof.
  intros Hl. unfold container_list.MoveToFront. cbn [container_list.pos].
  rewrite Hl. reflexivity.
Qed.

Lemma Get_run s k :
  lru.Get zero k s
  = match first k (ents s) with
    | Some (i, x) =>
        ((lru.value x, true),
         mkMachine (lru.mkCache (x :: delete i (ents s))) (clock s) (world s))
    | None => ((zero, false), s)
    end.
Proof.
  unfold lru.Get, lru.unsafeGet. run. rewrite findEntry_first.
  destruct s as [[l] ck w]; simpl.
  destruct l as [|y l]; [reflexivity|]. simpl container_list.Front. cbv iota.
  destruct (first k (y :: l)) as [[i x]|] eqn:Hf; [|reflexivity].
  cbn [fmap option_fmap option_map fst snd]. unfold store. cbn [cache clock world].
  rewrite (MoveToFront_at _ _ _ _ (first_lookup _ _ _ _ Hf)). reflexivity.
Qed.

Lemma Set_run s k v :
  lru.Set_ k v s
  = (tt, mkMachine
           (lru.mkCache
              (lru.mkEntry k v ::
               match first k (ents s) with
               | Some (i, _) => delete i (ents s)
               | None => ents s
               end))
           (clock s) (world s)).
Proof.
  unfold lru.Set_, lru.unsafeSet. run. rewrite findEntry_first.
  destruct s as [[l] ck w]; simpl.
  destruct (first k l) as [[i x]|] eqn:Hf; simpl.
  - unfold store, container_list.assign. simpl.
    erewrite MoveToFront_at
      by (rewrite list_lookup_alter_eq, (first_lookup _ _ _ _ Hf); reflexivity).
    rewrite (first_key _ _ _ _ Hf), delete_alter_same. reflexivity.
  - unfold store. simpl. destruct l; reflexivity.
Qed.

Lemma Delete_run s k :
  lru.Delete k s
  = (tt, match first k (ents s) with
         | Some (i, _) =>
             mkMachine (lru.mkCache (delete i (ents s))) (clock s) (world s)
         | None => s
         end).
Proof.
  unfold lru.Delete. run. rewrite findEntry_first.
  destruct s as [[l] ck w]; simpl.
  destruct (first k l) as [[i x]|]; reflexivity.
Qed.

Lemma lru_eval_Get s k :
  eval (lru.Get zero k) s
  = match snd <$> first k (ents s) with
    | Some x => (lru.value x, true)
    | None => (zero, false)
    end.
Proof.
  unfold eval. rewrite Get_run.
  destruct (first k (ents s)) as [[i x]|]; reflexivity.
Qed.

(** Moving the first node of a key to the front does not change which
    payload is the first of any key. *)
Lemma first_move k k' l i x :
  first k l = Some (i, x) ->
  snd <$> first k' (x :: delete i l) = snd <$> first k' l.
Proof.
  intros Hf. pose proof (first_key _ _ _ _ Hf) as Hk.
  pose proof (first_lookup _ _ _ _ Hf) as Hi. simpl.
  destruct (decide (lru.key x = k')) as [Heq|Hne].
  - assert (k' = k) as -> by congruence. rewrite Hf. reflexivity.
  - rewrite <- (first_delete_other k' l i x Hi Hne).
    destruct (first k' (delete i l)) as [[j z]|]; reflexivity.
Qed.

Lemma first_Get s k k' :
  snd <$> first k' (ents (exec (lru.Get zero k) s)) = snd <$> first k' (ents s).
Proof.
  unfold exec. rewrite Get_run.
  destruct (first k (ents s)) as [[i x]|] eqn:Hf; [|reflexivity].
  simpl snd. apply (first_move k). exact Hf.
Qed.

Lemma first_Set_same s k v :
  first k (ents (exec (lru.Set_ k v) s)) = Some (0%nat, lru.mkEntry k v).
Proof.
  unfold exec. rewrite Set_run. simpl. rewrite decide_True; reflexivity.
Qed.

Lemma first_Set_other s k v k' :
  k' <> k ->
  snd <$> first k' (ents (exec (lru.Set_ k v) s)) = snd <$> first k' (ents s).
Proof.
  intros Hne. unfold exec. rewrite Set_run. simpl.
  rewrite decide_False by (simpl; congruence).
  destruct (first k (ents s)) as [[i x]|] eqn:Hf.
  - rewrite <- (first_delete_other k' (ents s) i x).
    + destruct (first k' (delete i (ents s))) as [[j z]|]; reflexivity.
    + exact (first_lookup _ _ _ _ Hf).
    + rewrite (first_key _ _ _ _ Hf). congruence.
  - destruct (first k' (ents s)) as [[j z]|]; reflexivity.
Qed.

Lemma Get_miss_run s k :
  snd (eval (lru.Get zero k) s) = false -> lru.Get zero k s = ((zero, false), s).
Proof.
  unfold eval. rewrite Get_run.
  destruct (first k (ents s)) as [[i x]|]; [discriminate|reflexivity].
Qed.

Lemma Get_miss_notin s k :
  snd (eval (lru.Get zero k) s) = false <-> k ∉ keys (ents s).
Proof.
  rewrite <- first_None, lru_eval_Get.
  destruct (first k (ents s)) as [[i x]|]; simpl; split; congruence.
Qed.

Lemma lru_Do_hit s k (fn : Producer W V E) :
  snd (eval (lru.Get zero k) s) = true ->
  lru.Do zero k fn s
  = ((fst (eval (lru.Get zero k) s), None), exec (lru.Get zero k) s).
Proof.
  intros Hhit. unfold lru.Do, bind at 1.
  rewrite (run_pair (lru.Get zero k) s), Hhit. reflexivity.
Qed.

Lemma lru_Do_miss s k (fn : Producer W V E) :
  snd (eval (lru.Get zero k) s) = false ->
  let sf := mkMachine (cache s) (tick (clock s)) (snd (fn (world s))) in
  lru.Do zero k fn s
  = match snd (fst (fn (world s))) with
    | Some err => ((fst (fst (fn (world s))), Some err), sf)
    | None => ((fst (fst (fn (world s))), None),
               exec (lru.Set_ k (fst (fst (fn (world s))))) sf)
    end.
Proof.
  intros Hmiss sf. pose proof (Get_miss_run s k Hmiss) as Hrun.
  unfold lru.Do, bind at 1. rewrite Hrun. simpl.
  unfold bind at 1. change (lru.unsafeGet zero k s) with (lru.Get zero k s).
  rewrite Hrun. simpl. unfold bind, call.
  destruct (fn (world s)) as [[v [err|]] w']; [reflexivity|].
  simpl. rewrite (run_pair (lru.unsafeSet k v) _). reflexivity.
Qed.

Lemma lru_Do_error s k (fn : Producer W V E) v err w' :
  snd (eval (lru.Get zero k) s) = false ->
  fn (world s) = ((v, Some err), w') ->
  let s' := exec (lru.Do zero k fn) s in
  eval (lru.Do zero k fn) s = (v, Some err) /\
  cache s' = cache s /\ world s' = w' /\
  forall d,
    eval (lru.Get zero k) (later d s') = (zero, false) /\
    forall fn2 : Producer W V E,
      eval (lru.Do zero k fn2) (later d s') = fst (fn2 w') /\
      world (exec (lru.Do zero k fn2) (later d s')) = snd (fn2 w').
Proof.
  intros Hmiss Hfn s'. unfold s', eval, exec.
  rewrite (lru_Do_miss s k fn Hmiss), Hfn. simpl.
  assert (forall d, snd (eval (lru.Get zero k)
            (later d (mkMachine (cache s) (tick (clock s)) w'))) = false) as Hm.
  { intros d. apply Get_miss_notin. apply Get_miss_notin in Hmiss. exact Hmiss. }
  repeat split; trivial.
  - rewrite (Get_miss_run _ k (Hm d)). reflexivity.
  - rewrite (lru_Do_miss _ k fn2 (Hm d)). simpl.
    destruct (fn2 w') as [[v2 [e2|]] w2]; reflexivity.
  - rewrite (lru_Do_miss _ k fn2 (Hm d)). simpl.
    destruct (fn2 w') as [[v2 [e2|]] w2]; [reflexivity|].
    simpl. unfold exec. rewrite Set_run. reflexivity.
Qed.

(** *** Which keys the chain holds *)

Lemma keys_Get s k : keys (ents (exec (lru.Get zero k) s)) ≡ₚ keys (ents s).
Proof.
  unfold exec. rewrite Get_run.
  destruct (first k (ents s)) as [[i x]|] eqn:Hf; [|reflexivity].
  simpl snd. cbn [cache lru.entries]. symmetry.
  change (keys (ents s) ≡ₚ keys (x :: delete i (ents s))).
  apply fmap_Permutation, delete_Permutation, (first_lookup _ _ _ _ Hf).
Qed.

Lemma keys_Set_old s k v :
  k ∈ keys (ents s) -> keys (ents (exec (lru.Set_ k v) s)) ≡ₚ keys (ents s).
Proof.
  intros Hin. unfold exec. rewrite Set_run. cbn [snd cache lru.entries].
  destruct (first k (ents s)) as [[i x]|] eqn:Hf.
  - rewrite (delete_Permutation _ _ _ (first_lookup _ _ _ _ Hf)) at 2.
    rewrite !fmap_cons, (first_key _ _ _ _ Hf). reflexivity.
  - apply first_None in Hf. contradiction.
Qed.

Lemma keys_Set_new s k v :
  k ∉ keys (ents s) -> keys (ents (exec (lru.Set_ k v) s)) = k :: keys (ents s).
Proof.
  intros Hin. unfold exec. rewrite Set_run. cbn [snd cache lru.entries].
  apply first_None in Hin. rewrite Hin. reflexivity.
Qed.

Lemma keys_Set s k v :
  keys (ents (exec (lru.Set_ k v) s))
  ≡ₚ if decide (k ∈ keys (ents s)) then keys (ents s) else k :: keys (ents s).
Proof.
  destruct (decide _); [apply keys_Set_old | rewrite keys_Set_new]; auto.
Qed.

Lemma NoDup_Set s k v :
  NoDup (keys (ents s)) -> NoDup (keys (ents (exec (lru.Set_ k v) s))).
Proof.
  intros Hnd. rewrite keys_Set. destruct (decide _); [assumption|].
  apply NoDup_cons; auto.
Qed.

(** *** A sequence of [Set] calls *)

Local Abbreviation Sets seq := (for_range seq (fun k v => lru.Set_ k v)).

Lemma first_Sets_notin s k (seq : list (K * V)) :
  k ∉ seq.*1 ->
  snd <$> first k (ents (exec (Sets seq) s)) = snd <$> first k (ents s).
Proof.
  revert s. induction seq as [|[k' v'] seq IH]; intros s Hk; [reflexivity|].
  rewrite fmap_cons, not_elem_of_cons in Hk. destruct Hk as [Hne Hk].
  rewrite for_range_cons, IH by assumption.
  apply first_Set_other. exact Hne.
Qed.

Lemma Get_Sets_last s k v (l1 l2 : list (K * V)) :
  k ∉ l2.*1 ->
  eval (lru.Get zero k) (exec (Sets (l1 ++ (k, v) :: l2)) s) = (v, true).
Proof.
  intros Hk. rewrite lru_eval_Get, for_range_snoc, for_range_cons.
  rewrite first_Sets_notin, first_Set_same by assumption. reflexivity.
Qed.

Lemma NoDup_Sets s (seq : list (K * V)) :
  NoDup (keys (ents s)) -> NoDup (keys (ents (exec (Sets seq) s))).
Proof.
  revert s. induction seq as [|[k v] seq IH]; intros s Hnd; [assumption|].
  rewrite for_range_cons. apply IH, NoDup_Set, Hnd.
Qed.

Lemma keys_Sets_fresh s (seq : list (K * V)) :
  NoDup seq.*1 -> (forall k, k ∈ seq.*1 -> k ∉ keys (ents s)) ->
  keys (ents (exec (Sets seq) s)) = reverse seq.*1 ++ keys (ents s).
Proof.
  revert s. induction seq as [|[k v] seq IH]; intros s Hnd Hfresh;
    [reflexivity|].
  rewrite fmap_cons in *. simpl in Hnd. apply NoDup_cons in Hnd as [Hk Hnd].
  rewrite for_range_cons, IH.
  - rewrite keys_Set_new by (apply Hfresh; left).
    simpl. rewrite reverse_cons, <- app_assoc. reflexivity.
  - exact Hnd.
  - intros k' Hk'. rewrite keys_Set_new by (apply Hfresh; left).
    rewrite not_elem_of_cons. split.
    + intros ->. contradiction.
    + apply Hfresh. right. exact Hk'.
Qed.

(** *** Nothing but [Delete] takes a node out *)

Lemma keeps_Get s k : keys (ents s) ⊆+ keys (ents (exec (lru.Get zero k) s)).
Proof. rewrite keys_Get. reflexivity. Qed.

Lemma keeps_Set s k v : keys (ents s) ⊆+ keys (ents (exec (lru.Set_ k v) s)).
Proof.
  rewrite keys_Set. destruct (decide _); [reflexivity|].
  apply submseteq_cons. reflexivity.
Qed.

Lemma keeps_Sets s (seq : list (K * V)) :
  keys (ents s) ⊆+ keys (ents (exec (Sets seq) s)).
Proof.
  revert s. induction seq as [|[k v] seq IH]; intros s; [reflexivity|].
  rewrite for_range_cons. etransitivity; [apply (keeps_Set s k v)|apply IH].
Qed.

Lemma keeps_Do s k (fn : Producer W V E) :
  keys (ents s) ⊆+ keys (ents (exec (lru.Do zero k fn) s)).
Proof.
  unfold exec. destruct (snd (eval (lru.Get zero k) s)) eqn:Hg.
  - rewrite (lru_Do_hit s k fn Hg). apply keeps_Get.
  - rewrite (lru_Do_miss s k fn Hg).
    destruct (fn (world s)) as [[v [err|]] w']; simpl; [reflexivity|].
    apply (keeps_Set (mkMachine (cache s) (tick (clock s)) w')).
Qed.

(** *** The constructor *)

(** C9. [New] takes one argument, the duration [d], and whatever it is
    returns the store with the empty chain, on which [Get(k)] returns
    [(zero, false)] for every key [k] and changes nothing. *)
Theorem New_is_empty (d : time.Duration) k (ck : Clock) (w : W) :
  lru.entries (lru.New (K:=K) (V:=V) d) = [] /\
  lru.Get zero k (mkMachine (lru.New d) ck w)
  = ((zero, false), mkMachine (lru.New d) ck w).
Proof. split; reflexivity. Qed.

(** *** No implicit eviction *)

(** C7. [Set] on each pair of a sequence with distinct keys, from a new
    store: the chain has as many nodes as the sequence has pairs, [Get]
    finds every pair, and a [Get] does not change what a later [Get] finds.
    And from any state, a key in the chain is still there, and the chain is
    no shorter, after [Get], [Set], [SetFromIter], [SetFromMap] and [Do]. *)
Theorem no_implicit_eviction (seq : list (K * V)) (d : time.Duration)
    (ck : Clock) (w : W) :
  NoDup seq.*1 ->
  let s := exec (Sets seq) (mkMachine (lru.New d) ck w) in
  length (ents s) = length seq /\
  (forall k v, (k, v) ∈ seq -> eval (lru.Get zero k) s = (v, true)) /\
  (forall k k' (s0 : Machine (lru.Cache K V) W),
     eval (lru.Get zero k) (exec (lru.Get zero k') s0)
     = eval (lru.Get zero k) s0) /\
  forall (s0 : Machine (lru.Cache K V) W) (s1 : Machine (lru.Cache K V) W),
    (exists k, s1 = exec (lru.Get zero k) s0) \/
    (exists k v, s1 = exec (lru.Set_ k v) s0) \/
    (exists seq', s1 = exec (lru.SetFromIter seq') s0) \/
    (exists pick m, s1 = exec (lru.SetFromMap pick m) s0) \/
    (exists k (fn : Producer W V E), s1 = exec (lru.Do zero k fn) s0) ->
    (forall k0, k0 ∈ keys (ents s0) -> k0 ∈ keys (ents s1)) /\
    (length (ents s0) <= length (ents s1))%nat.
Proof.
  intros Hnd s. split; [|split; [|split]].
  - unfold s. rewrite <- (length_fmap lru.key), keys_Sets_fresh.
    + simpl. rewrite app_nil_r, length_reverse, length_fmap. reflexivity.
    + exact Hnd.
    + intros k _. simpl. apply not_elem_of_nil.
  - intros k v Hin.
    destruct (split_at_key seq k v Hnd Hin) as (l1 & l2 & -> & _ & Hk2).
    apply Get_Sets_last. exact Hk2.
  - intros k k' s0. rewrite !lru_eval_Get, first_Get. reflexivity.
  - intros s0 s1 Hop.
    assert (keys (ents s0) ⊆+ keys (ents s1)) as Hsub.
    { destruct Hop as [(k & ->)|[(k & v & ->)|[(seq' & ->)|
        [(pick & m & ->)|(k & fn & ->)]]]].
      - apply keeps_Get.
      - apply keeps_Set.
      - apply (keeps_Sets s0 seq').
      - apply (keeps_Sets s0 (maps_All pick m)).
      - apply keeps_Do. }
    split.
    + intros k0 Hk0. exact (elem_of_submseteq _ _ _ Hk0 Hsub).
    + rewrite <- !(length_fmap lru.key). apply submseteq_length. exact Hsub.
Qed.

End lru_facts.

(** The constructor is a function of a duration: two calls with different
    durations are two calls, and give the same store. *)
Example New_takes_a_duration :
  exists d1 d2 : time.Duration,
    d1 <> d2 /\ lru.New (K:=string) (V:=Z) d1 = lru.New d2.
Proof. exists 0, 1. split; [discriminate|reflexivity]. Qed.

Example no_implicit_eviction_witness :
  let seq := [("a", 1); ("b", 2); ("c", 3)] in
  let s := exec (for_range seq (fun k v => lru.Set_ k v))
             (mkMachine (lru.New (K:=string) (V:=Z) 0)
                (mkClock 0 (fun _ => 0%N) 0) tt) in
  length (lru.entries (cache s)) = 3%nat /\
  eval (lru.Get 0 "b") s = (2, true) /\
  le 3 (length (lru.entries (cache (exec (lru.Get 0 "b") s)))).
Proof.
  intros seq s.
  assert (NoDup seq.*1) as Hnd
    by (apply (bool_decide_unpack _); vm_compute; exact I).
  destruct (no_implicit_eviction (E:=unit) 0 seq 0
              (mkClock 0 (fun _ => 0%N) 0) tt Hnd) as (Hlen & Hget & _ & Hkeep).
  split; [exact Hlen|]. split.
  - apply Hget. apply (bool_decide_unpack _). vm_compute. exact I.
  - apply (Hkeep s (exec (lru.Get 0 "b") s)). left. exists "b". reflexivity.
Defined.

(** C4. [Set("a", 1)], [Set("b", 2)], [Get("a")], which returns [(1, true)],
    and [Set("c", 3)] on a new store leave the chain, front to back, as
    [c], [a], [b]: [Get] moved [a] to the front and [Set] put [c] in front
    of it. *)
Theorem recency_scenario (ck : Clock) :
  let s0 := mkMachine (lru.New (K:=string) (V:=Z) 0) ck tt in
  let s2 := exec (lru.Set_ "b" 2) (exec (lru.Set_ "a" 1) s0) in
  let s4 := exec (lru.Set_ "c" 3) (exec (lru.Get 0 "a") s2) in
  eval (lru.Get 0 "a") s2 = (1, true) /\
  lru.entries (cache s4)
  = [lru.mkEntry "c" 3; lru.mkEntry "a" 1; lru.mkEntry "b" 2].
Proof. split; reflexivity. Qed.

(** The chain does not read [a], [c], [b] from front to back. *)
Example recency_scenario_not_a_c_b :
  let s0 := mkMachine (lru.New (K:=string) (V:=Z) 0)
              (mkClock 0 (fun _ => 0%N) 0) tt in
  let s2 := exec (lru.Set_ "b" 2) (exec (lru.Set_ "a" 1) s0) in
  let s4 := exec (lru.Set_ "c" 3) (exec (lru.Get 0 "a") s2) in
  eval (lru.Get 0 "a") s2 = (1, true) /\
  lru.key <$> lru.entries (cache s4) <> ["a"; "c"; "b"].
Proof. split; [reflexivity|discriminate]. Qed.

End lru_facts.

(** ** Both stores *)
Section both_stores.

Context `{Countable K} {V E W : Type}.
Variable zero : V.

Implicit Types (st : Machine (ttl.Cache K V) W) (sl : Machine (lru.Cache K V) W).
Implicit Types (k : K) (v : V) (fn : Producer W V E).

(** C1. When the key is not cached, so that [Do] calls the producer, and the
    producer returns an error: [Do] returns that error, the store is what it
    was, a [Get(k)] at any later moment returns [(zero, false)], and a
    [Do(k, fn2)] at any later moment returns what [fn2] returns and has the
    effect of [fn2] on the caller's state. *)
Theorem Do_failure_leaves_no_trace k fn v (err : E) (w' : W) st sl :
  (snd (eval (ttl.Get zero k) st) = false ->
   fn (world st) = ((v, Some err), w') ->
   let st' := exec (ttl.Do zero k fn) st in
   snd (eval (ttl.Do zero k fn) st) = Some err /\
   cache st' = cache st /\
   forall d : N,
     eval (ttl.Get zero k) (later d st') = (zero, false) /\
     forall fn2 : Producer W V E,
       eval (ttl.Do zero k fn2) (later d st') = fst (fn2 (world st')) /\
       world (exec (ttl.Do zero k fn2) (later d st')) = snd (fn2 (world st')))
  /\
  (snd (eval (lru.Get zero k) sl) = false ->
   fn (world sl) = ((v, Some err), w') ->
   let sl' := exec (lru.Do zero k fn) sl in
   snd (eval (lru.Do zero k fn) sl) = Some err /\
   cache sl' = cache sl /\
   forall d : N,
     eval (lru.Get zero k) (later d sl') = (zero, false) /\
     forall fn2 : Producer W V E,
       eval (lru.Do zero k fn2) (later d sl') = fst (fn2 (world sl')) /\
       world (exec (lru.Do zero k fn2) (later d sl')) = snd (fn2 (world sl'))).
Proof.
  split; intros Hmiss Hfn.
  - destruct (ttl_facts.ttl_Do_error zero st k fn v err w' Hmiss Hfn)
      as (Hr & Hc & Hw & Hnext).
    cbv zeta. rewrite Hr, Hw. auto.
  - destruct (lru_facts.lru_Do_error zero sl k fn v err w' Hmiss Hfn)
      as (Hr & Hc & Hw & Hnext).
    cbv zeta. rewrite Hr, Hw. auto.
Qed.

(** C10. When the key is not cached and the producer returns the pair
    [(v, err)] with [err] not nil, [Do] returns the pair [(v, err)], whatever
    [v] is; and whenever [Do] returns an error, the pair it returns is the
    producer's. *)
Theorem Do_returns_the_producers_pair k fn v (err : E) (w' : W) st sl :
  (snd (eval (ttl.Get zero k) st) = false ->
   fn (world st) = ((v, Some err), w') ->
   eval (ttl.Do zero k fn) st = (v, Some err)) /\
  (snd (eval (lru.Get zero k) sl) = false ->
   fn (world sl) = ((v, Some err), w') ->
   eval (lru.Do zero k fn) sl = (v, Some err)) /\
  (snd (eval (ttl.Do zero k fn) st) <> None ->
   eval (ttl.Do zero k fn) st = fst (fn (world st))) /\
  (snd (eval (lru.Do zero k fn) sl) <> None ->
   eval (lru.Do zero k fn) sl = fst (fn (world sl))).
Proof.
  split; [|split; [|split]].
  - intros Hmiss Hfn. unfold eval.
    rewrite (ttl_facts.ttl_Do_miss zero st k fn Hmiss), Hfn. reflexivity.
  - intros Hmiss Hfn. unfold eval.
    rewrite (lru_facts.lru_Do_miss zero sl k fn Hmiss), Hfn. reflexivity.
  - unfold eval at 1 2. destruct (snd (eval (ttl.Get zero k) st)) eqn:Hg.
    + rewrite (ttl_facts.ttl_Do_hit zero st k fn Hg). simpl. congruence.
    + rewrite (ttl_facts.ttl_Do_miss zero st k fn Hg).
      destruct (fn (world st)) as [[v1 [e1|]] w1]; reflexivity.
  - unfold eval at 1 2. destruct (snd (eval (lru.Get zero k) sl)) eqn:Hg.
    + rewrite (lru_facts.lru_Do_hit zero sl k fn Hg). simpl. congruence.
    + rewrite (lru_facts.lru_Do_miss zero sl k fn Hg).
      destruct (fn (world sl)) as [[v1 [e1|]] w1]; reflexivity.
Qed.

(** C3, amended. If [Get(k)] finds the value [v0], [Do] returns [(v0, nil)]
    and the producer is not called: the caller's state is what it was.  If
    [Get(k)] finds nothing, the producer is called once: [Do] returns its
    pair and the caller's state is the one it leaves.  When it succeeds with
    [v], the recency store has the node [(k, v)] in front of its old chain
    and returns [(v, true)] to every later [Get(k)]; the TTL store is the
    old map with the entry [(v, t + ttl)] under [k], where [t] is the
    reading of the clock that the write takes, after the two lookups and the
    run of the producer and as the last step of [Do], and it returns
    [(v, true)] to a [Get(k)] at a time up to [t + ttl] and [(zero, false)]
    to one after it. *)
Theorem Do_check_then_compute k fn st sl :
  (forall v0, eval (ttl.Get zero k) st = (v0, true) ->
     eval (ttl.Do zero k fn) st = (v0, None) /\
     world (exec (ttl.Do zero k fn) st) = world st /\
     cache (exec (ttl.Do zero k fn) st) = cache st) /\
  (forall v0, eval (lru.Get zero k) sl = (v0, true) ->
     eval (lru.Do zero k fn) sl = (v0, None) /\
     world (exec (lru.Do zero k fn) sl) = world sl) /\
  (snd (eval (ttl.Get zero k) st) = false ->
     let st' := exec (ttl.Do zero k fn) st in
     eval (ttl.Do zero k fn) st = fst (fn (world st)) /\
     world st' = snd (fn (world st)) /\
     forall v, fst (fn (world st)) = (v, None) ->
       let ck := tick (clock (exec (ttl.unsafeGet zero k)
                                (exec (ttl.Get zero k) st))) in
       let t := now ck in
       now (clock st) <= t /\
       clock st' = tick ck /\
       cache st'
       = ttl.mkCache
           (<[k := ttl.mkEntry v (t + ttl.ttl (cache st))]>
              (ttl.data (cache st)))
           (ttl.ttl (cache st)) /\
       ttl.data (cache st') !! k
         = Some (ttl.mkEntry v (t + ttl.ttl (cache st))) /\
       forall d : N,
         (now (clock (later d st')) <= t + ttl.ttl (cache st) ->
          eval (ttl.Get zero k) (later d st') = (v, true)) /\
         (t + ttl.ttl (cache st) < now (clock (later d st')) ->
          eval (ttl.Get zero k) (later d st') = (zero, false))) /\
  (snd (eval (lru.Get zero k) sl) = false ->
     let sl' := exec (lru.Do zero k fn) sl in
     eval (lru.Do zero k fn) sl = fst (fn (world sl)) /\
     world sl' = snd (fn (world sl)) /\
     forall v, fst (fn (world sl)) = (v, None) ->
       lru.entries (cache sl') = lru.mkEntry k v :: lru.entries (cache sl) /\
       forall d : N, eval (lru.Get zero k) (later d sl') = (v, true)).
Proof.
  split; [|split; [|split]].
  - intros v0 Hg. assert (snd (eval (ttl.Get zero k) st) = true) as Hhit
      by (rewrite Hg; reflexivity).
    unfold eval at 1, exec. rewrite (ttl_facts.ttl_Do_hit zero st k fn Hhit), Hg.
    simpl. split; [reflexivity|].
    split; [apply ttl_facts.world_Get | apply ttl_facts.cache_Get].
  - intros v0 Hg. assert (snd (eval (lru.Get zero k) sl) = true) as Hhit
      by (rewrite Hg; reflexivity).
    unfold eval at 1, exec. rewrite (lru_facts.lru_Do_hit zero sl k fn Hhit), Hg.
    simpl. split; [reflexivity|].
    unfold exec. rewrite lru_facts.Get_run.
    destruct (list_find _ _) as [[i x]|]; reflexivity.
  - intros Hmiss st'.
    pose proof (ttl_facts.ttl_Do_miss zero st k fn Hmiss) as Hrun.
    cbv zeta in Hrun.
    pose proof (ttl_facts.now_Do_miss zero st k) as Hnow.
    set (ck := tick (clock (exec (ttl.unsafeGet zero k)
                              (exec (ttl.Get zero k) st)))) in *.
    change (eval (ttl.Do zero k fn) st) with (fst (ttl.Do zero k fn st)).
    assert (st' = snd (ttl.Do zero k fn st)) as Hst' by reflexivity.
    clearbody st'. subst st'. rewrite Hrun.
    destruct (fn (world st)) as [[v1 [e1|]] w1]; cbn [fst snd].
    + split; [reflexivity|]. split; [reflexivity|]. intros v [=].
    + split; [reflexivity|]. split; [reflexivity|]. intros v [= <-].
      rewrite ttl_facts.exec_Set. cbn [cache clock world ttl.data ttl.ttl].
      split; [exact Hnow|]. split; [reflexivity|]. split; [reflexivity|].
      assert (<[k:=ttl.mkEntry v1 (now ck + ttl.ttl (cache st))]>
                (ttl.data (cache st)) !! k
              = Some (ttl.mkEntry v1 (now ck + ttl.ttl (cache st)))) as Hk
        by apply lookup_insert_eq.
      split; [exact Hk|]. intros d.
      exact (ttl_facts.Get_after_write zero
               (mkMachine (ttl.mkCache _ _) (tick ck) w1) k v1 _ d Hk).
  - intros Hmiss sl'. unfold sl', eval at 1, exec.
    rewrite (lru_facts.lru_Do_miss zero sl k fn Hmiss).
    destruct (fn (world sl)) as [[v1 [e1|]] w1]; simpl.
    + split; [reflexivity|]. split; [reflexivity|]. intros v [=].
    + split; [reflexivity|].
      split; [unfold exec; rewrite lru_facts.Set_run; reflexivity|].
      intros v [= <-]. split.
      * unfold exec. rewrite lru_facts.Set_run. cbn [snd cache lru.entries].
        apply lru_facts.Get_miss_notin, lru_facts.first_None in Hmiss.
        rewrite Hmiss. reflexivity.
      * intros d. rewrite lru_facts.lru_eval_Get.
        change (lru.entries (cache (later d ?s))) with (lru.entries (cache s)).
        rewrite lru_facts.first_Set_same. reflexivity.
Qed.

(** C5, amended. After any sequence of [Set] calls the TTL store's map has
    no two entries with one key, and neither has the recency store's chain
    if it had none before (a new store has none).  If [Set(k, v)] is the
    last call of the sequence for the key [k], the recency store returns
    [(v, true)] to every later [Get(k)]; the TTL store holds the entry
    [(v, t + ttl)], [t] the time of that call, and returns [(v, true)] to a
    [Get(k)] at a time up to [t + ttl] and [(zero, false)] to one after
    it. *)
Theorem last_Set_wins (seq0 l1 l2 : list (K * V)) k v (d0 : time.Duration)
    st sl :
  k ∉ l2.*1 ->
  let seq := l1 ++ (k, v) :: l2 in
  let st' := exec (for_range seq (fun k v => ttl.Set_ k v)) st in
  let sl' := exec (for_range seq (fun k v => lru.Set_ k v)) sl in
  let t := now (clock (exec (for_range l1 (fun k v => ttl.Set_ k v)) st)) in
  NoDup (map_to_list (ttl.data (cache
           (exec (for_range seq0 (fun k v => ttl.Set_ k v)) st)))).*1 /\
  NoDup (lru.key <$> lru.entries (lru.New (K:=K) (V:=V) d0)) /\
  (NoDup (lru.key <$> lru.entries (cache sl)) ->
   NoDup (lru.key <$> lru.entries (cache
            (exec (for_range seq0 (fun k v => lru.Set_ k v)) sl)))) /\
  ttl.data (cache st') !! k = Some (ttl.mkEntry v (t + ttl.ttl (cache st))) /\
  (forall d : N,
     (now (clock (later d st')) <= t + ttl.ttl (cache st) ->
      eval (ttl.Get zero k) (later d st') = (v, true)) /\
     (t + ttl.ttl (cache st) < now (clock (later d st')) ->
      eval (ttl.Get zero k) (later d st') = (zero, false))) /\
  (forall d : N, eval (lru.Get zero k) (later d sl') = (v, true)).
Proof.
  intros Hk seq st' sl' t.
  pose proof (ttl_facts.data_Sets_last st k v l1 l2 Hk) as Hdata.
  split; [apply NoDup_fst_map_to_list|].
  split; [apply NoDup_nil_2|].
  split; [apply lru_facts.NoDup_Sets|].
  split; [exact Hdata|].
  split.
  - intros d. exact (ttl_facts.Get_after_write zero st' k v _ d Hdata).
  - intros d. rewrite lru_facts.lru_eval_Get.
    change (lru.entries (cache (later d sl'))) with (lru.entries (cache sl')).
    rewrite <- lru_facts.lru_eval_Get. apply lru_facts.Get_Sets_last. exact Hk.
Qed.


End both_stores.

(** ** The theorems at work *)

(** Stores of integers under string keys; the caller's state counts the
    calls of its producers; the clock starts at 100 and moves by one
    nanosecond at each reading. *)
Section instances.

Let clock0 : Clock := mkClock 100 (fun _ => 1%N) 0.
Let ttl_store (d : time.Duration) : Machine (ttl.Cache string Z) nat :=
  mkMachine (ttl.New d) clock0 0%nat.
Let lru_store : Machine (lru.Cache string Z) nat :=
  mkMachine (lru.New 0) clock0 0%nat.
Let ttl_store_at_rest (d : time.Duration) : Machine (ttl.Cache string Z) nat :=
  mkMachine (ttl.New d) (mkClock 100 (fun _ => 0%N) 0) 0%nat.
Let failing : Producer nat Z string := fun n => ((5, Some "boom"), S n).
Let working : Producer nat Z string := fun n => ((7, None), S n).

(** A key that was written and has expired, and a key that never was. *)
Example Do_failure_witness :
  let st := later 50 (exec (ttl.Set_ "k" 1) (ttl_store 10)) in
  (snd (eval (ttl.Do 0 "k" failing) st) = Some "boom" /\
   eval (ttl.Get 0 "k") (later 3 (exec (ttl.Do 0 "k" failing) st)) = (0, false) /\
   world (exec (ttl.Do 0 "k" working) (later 3 (exec (ttl.Do 0 "k" failing) st)))
   = 2%nat) /\
  (snd (eval (lru.Do 0 "k" failing) lru_store) = Some "boom" /\
   eval (lru.Get 0 "k") (later 3 (exec (lru.Do 0 "k" failing) lru_store))
   = (0, false) /\
   world (exec (lru.Do 0 "k" working)
            (later 3 (exec (lru.Do 0 "k" failing) lru_store)))
   = 2%nat).
Proof.
  intros st.
  destruct (Do_failure_leaves_no_trace 0 "k" failing 5 "boom" 1%nat st lru_store)
    as [Ht Hl].
  split.
  - destruct Ht as (Herr & _ & Hnext); [reflexivity|reflexivity|].
    split; [exact Herr|]. destruct (Hnext 3%N) as [Hget Hdo].
    split; [exact Hget|]. exact (proj2 (Hdo working)).
  - destruct Hl as (Herr & _ & Hnext); [reflexivity|reflexivity|].
    split; [exact Herr|]. destruct (Hnext 3%N) as [Hget Hdo].
    split; [exact Hget|]. exact (proj2 (Hdo working)).
Defined.

Example Do_pair_witness :
  (eval (ttl.Do 0 "k" failing) (ttl_store 10) = (5, Some "boom") /\
   eval (lru.Do 0 "k" failing) lru_store = (5, Some "boom")) /\
  (eval (ttl.Do 0 "k" failing) (ttl_store 10) = fst (failing 0%nat) /\
   eval (lru.Do 0 "k" failing) lru_store = fst (failing 0%nat)).
Proof.
  destruct (Do_returns_the_producers_pair 0 "k" failing 5 "boom" 1%nat
              (ttl_store 10) lru_store) as (Ht & Hl & Ht' & Hl').
  split; split.
  - apply Ht; reflexivity.
  - apply Hl; reflexivity.
  - apply Ht'. vm_compute. discriminate.
  - apply Hl'. vm_compute. discriminate.
Defined.

Example Do_check_then_compute_witness :
  let st := exec (ttl.Set_ "k" 1) (ttl_store 10) in
  let sl := exec (lru.Set_ "k" 1) lru_store in
  (eval (ttl.Do 0 "k" working) st = (1, None) /\
   world (exec (ttl.Do 0 "k" working) st) = 0%nat) /\
  (eval (lru.Do 0 "k" working) sl = (1, None) /\
   world (exec (lru.Do 0 "k" working) sl) = 0%nat) /\
  (eval (ttl.Do 0 "j" working) st = (7, None) /\
   world (exec (ttl.Do 0 "j" working) st) = 1%nat /\
   ttl.data (cache (exec (ttl.Do 0 "j" working) st)) !! "j"
   = Some (ttl.mkEntry 7 (102 + 10))) /\
  (eval (lru.Do 0 "j" working) sl = (7, None) /\
   eval (lru.Get 0 "j") (later 9 (exec (lru.Do 0 "j" working) sl)) = (7, true)).
Proof.
  intros st sl.
  destruct (Do_check_then_compute 0 "k" working st sl) as (Ht & Hl & _).
  destruct (Do_check_then_compute 0 "j" working st sl) as (_ & _ & Ht' & Hl').
  split; [|split; [|split]].
  - destruct (Ht 1) as (Hr & Hw & _); [reflexivity|]. split; assumption.
  - destruct (Hl 1) as (Hr & Hw); [reflexivity|]. split; assumption.
  - destruct Ht' as (Hr & Hw & Hstored); [reflexivity|].
    split; [exact Hr|]. split; [exact Hw|].
    destruct (Hstored 7 eq_refl) as (_ & _ & _ & Hdata & _). exact Hdata.
  - destruct Hl' as (Hr & _ & Hget); [reflexivity|].
    split; [exact Hr|]. apply Hget. reflexivity.
Defined.

(** The producer succeeds and [Do] returns its value, but the store does
    not return it to the [Get] that follows: in a store with ttl -1 at the
    very reading of the write, in a store with ttl 0 one nanosecond later. *)
Example Do_value_not_retrievable :
  (eval (ttl.Do 0 "k" working) (ttl_store_at_rest (-1)) = (7, None) /\
   now (clock (exec (ttl.Do 0 "k" working) (ttl_store_at_rest (-1)))) = 100 /\
   eval (ttl.Get 0 "k") (exec (ttl.Do 0 "k" working) (ttl_store_at_rest (-1)))
   = (0, false)) /\
  (eval (ttl.Do 0 "k" working) (ttl_store 0) = (7, None) /\
   eval (ttl.Get 0 "k") (exec (ttl.Do 0 "k" working) (ttl_store 0))
   = (0, false)).
Proof. repeat split; vm_compute; reflexivity. Qed.

Example last_Set_wins_witness :
  let seq := [("a", 1); ("b", 2); ("a", 3)] in
  let st' := exec (for_range seq (fun k v => ttl.Set_ k v)) (ttl_store 10) in
  let sl' := exec (for_range seq (fun k v => lru.Set_ k v)) lru_store in
  ttl.data (cache st') !! "a" = Some (ttl.mkEntry 3 112) /\
  eval (ttl.Get 0 "a") (later 4 st') = (3, true) /\
  eval (lru.Get 0 "a") (later 4 sl') = (3, true) /\
  NoDup (lru.key <$> lru.entries (cache sl')).
Proof.
  intros seq st' sl'.
  assert ("a" ∉ ([] : list (string * Z)).*1) as Hk
    by (apply (bool_decide_unpack _); vm_compute; exact I).
  destruct (last_Set_wins 0 seq [("a", 1); ("b", 2)] [] "a" 3 0
              (ttl_store 10) lru_store Hk) as (_ & _ & Hnd & Hdata & Httl & Hlru).
  split; [exact Hdata|].
  split; [apply (Httl 4%N); vm_compute; discriminate|].
  split; [apply (Hlru 4%N)|].
  apply Hnd. vm_compute. constructor.
Defined.

(** [Set("k", 1)] then [Set("k", 2)], and the [Get("k")] that follows does
    not return 2: in a store with ttl -1 at the very reading of the last
    write, in a store with ttl 0 one nanosecond later. *)
Example last_Set_not_returned :
  let seq := [("k", 1); ("k", 2)] in
  eval (ttl.Get 0 "k")
    (exec (for_range seq (fun k v => ttl.Set_ k v)) (ttl_store_at_rest (-1)))
  = (0, false) /\
  eval (ttl.Get 0 "k")
    (exec (for_range seq (fun k v => ttl.Set_ k v)) (ttl_store 0))
  = (0, false).
Proof. split; vm_compute; reflexivity. Qed.



End instances.

(** * The rest of the two packages *)

(** ** The TTL store: deleting, reading and writing *)
Module ttl_more.
Section ttl_more.

Context `{Countable K} {V E W : Type}.
Variable zero : V.

Implicit Types (s : Machine (ttl.Cache K V) W) (k : K) (v : V).

Lemma exec_Delete s k :
  exec (ttl.Delete k) s
  = mkMachine (ttl.mkCache (delete k (ttl.data (cache s))) (ttl.ttl (cache s)))
      (clock s) (world s).
Proof. reflexivity. Qed.

Lemma machine_eta s :
  mkMachine (ttl.mkCache (ttl.data (cache s)) (ttl.ttl (cache s)))
    (clock s) (world s) = s.
Proof. destruct s as [[m d] ck w]. reflexivity. Qed.

(** A read sees the entry of its key and the clock, and nothing else. *)
Lemma Get_same_entry s s' k :
  ttl.data (cache s') !! k = ttl.data (cache s) !! k ->
  now (clock s') = now (clock s) ->
  eval (ttl.Get zero k) s' = eval (ttl.Get zero k) s.
Proof.
  intros Hk Hn. rewrite !ttl_facts.ttl_eval_Get, Hk, Hn. reflexivity.
Qed.

(** X1. [Delete(k)] takes the entry of [k] out of the map, expired or not,
    and touches nothing else: the ttl, the clock, the caller's state and the
    entries of the other keys are what they were.  Every later [Get(k)]
    returns [(zero, false)], and a later [Get] of another key returns what it
    would have returned without the [Delete]. *)
Theorem Delete_removes_only_its_key s k :
  let s' := exec (ttl.Delete k) s in
  ttl.data (cache s') !! k = None /\
  ttl.ttl (cache s') = ttl.ttl (cache s) /\
  clock s' = clock s /\
  world s' = world s /\
  (forall d : N, eval (ttl.Get zero k) (later d s') = (zero, false)) /\
  (forall k', k' <> k ->
     ttl.data (cache s') !! k' = ttl.data (cache s) !! k' /\
     forall d : N,
       eval (ttl.Get zero k') (later d s') = eval (ttl.Get zero k') (later d s)).
Proof.
  intros s'. unfold s'. rewrite exec_Delete. cbn [cache clock world ttl.data ttl.ttl].
  split; [apply lookup_delete_eq|]. do 3 (split; [reflexivity|]).
  split.
  - intros d. rewrite ttl_facts.ttl_eval_Get. cbn [later cache ttl.data].
    rewrite lookup_delete_eq. reflexivity.
  - intros k' Hne.
    assert (delete k (ttl.data (cache s)) !! k' = ttl.data (cache s) !! k') as Hk
      by (apply lookup_delete_ne; congruence).
    split; [exact Hk|]. intros d. apply Get_same_entry; [exact Hk|reflexivity].
Qed.

(** X2. [Delete(k)] of a key that has no entry changes nothing at all, so a
    second [Delete(k)] after a first changes nothing. *)
Theorem Delete_missing_key_is_noop s k :
  (ttl.data (cache s) !! k = None -> ttl.Delete k s = (tt, s)) /\
  exec (ttl.Delete k) (exec (ttl.Delete k) s) = exec (ttl.Delete k) s.
Proof.
  split.
  - intros Hk. rewrite (run_pair (ttl.Delete k) s). f_equal.
    rewrite exec_Delete, (delete_id _ _ Hk). apply machine_eta.
  - rewrite !exec_Delete. cbn [cache clock world ttl.data ttl.ttl].
    rewrite delete_delete_eq. reflexivity.
Qed.

(** X3. The expiry bound is inclusive: a [Get(k)] whose clock reading is
    exactly the expiry [t0 + ttl] of the entry that [Set(k, v)] wrote at
    [t0] still returns [(v, true)]. *)
Theorem expiry_bound_is_inclusive s k v (d : N) :
  now (clock (later d (exec (ttl.Set_ k v) s)))
  = now (clock s) + ttl.ttl (cache s) ->
  eval (ttl.Get zero k) (later d (exec (ttl.Set_ k v) s)) = (v, true).
Proof.
  intros Hnow.
  apply (ttl_facts.Get_after_write zero _ k v _ d (ttl_facts.data_Set_same s k v)).
  lia.
Qed.

(** X4. [Get] never writes: the map, the ttl and the caller's state are what
    they were, whatever it returns.  It reads the clock only when the key has
    an entry: without one it returns [(zero, false)] and the machine is
    untouched. *)
Theorem Get_is_read_only s k :
  cache (exec (ttl.Get zero k) s) = cache s /\
  world (exec (ttl.Get zero k) s) = world s /\
  (ttl.data (cache s) !! k = None -> ttl.Get zero k s = ((zero, false), s)) /\
  (is_Some (ttl.data (cache s) !! k) ->
   clock (exec (ttl.Get zero k) s) = tick (clock s)).
Proof.
  split; [apply ttl_facts.cache_Get|]. split; [apply ttl_facts.world_Get|].
  unfold ttl.Get, ttl.unsafeGet, exec, bind, load, time_Now, ret. cbn [fst snd].
  split.
  - intros ->. reflexivity.
  - intros [e ->]. cbn [fst snd]. destruct (time.After _ _); reflexivity.
Qed.

(** X5. [Set(k, v)] writes the entry of [k] and no other: the map is the
    old one with [(v, t + ttl)] under [k], [t] the reading of the clock that
    the write takes; the entry of every other key and the ttl are what they
    were, the caller's state too, and the clock was read once.  A later [Get]
    of another key returns what it would have returned had the clock been
    read without the write. *)
Theorem Set_writes_only_its_key s k v k' :
  k' <> k ->
  let s' := exec (ttl.Set_ k v) s in
  ttl.data (cache s') !! k
  = Some (ttl.mkEntry v (now (clock s) + ttl.ttl (cache s))) /\
  ttl.data (cache s')
  = <[k := ttl.mkEntry v (now (clock s) + ttl.ttl (cache s))]>
      (ttl.data (cache s)) /\
  ttl.data (cache s') !! k' = ttl.data (cache s) !! k' /\
  ttl.ttl (cache s') = ttl.ttl (cache s) /\
  world s' = world s /\
  clock s' = tick (clock s) /\
  forall d : N,
    eval (ttl.Get zero k') (later d s')
    = eval (ttl.Get zero k')
        (later d (mkMachine (cache s) (tick (clock s)) (world s))).
Proof.
  intros Hne s'. unfold s'. rewrite ttl_facts.exec_Set.
  cbn [cache clock world ttl.data ttl.ttl].
  assert (<[k:=ttl.mkEntry v (now (clock s) + ttl.ttl (cache s))]>
            (ttl.data (cache s)) !! k' = ttl.data (cache s) !! k') as Hk
    by (apply lookup_insert_ne; congruence).
  split; [apply lookup_insert_eq|]. split; [reflexivity|].
  split; [exact Hk|]. do 3 (split; [reflexivity|]).
  intros d. apply Get_same_entry; [exact Hk|reflexivity].
Qed.

(** X6. [Do(k, fn)] leaves the entry of every other key and the ttl as they
    were, whether it finds [k], or the producer fails, or the producer
    succeeds. *)
Theorem Do_writes_only_its_key s k (fn : Producer W V E) k' :
  k' <> k ->
  ttl.data (cache (exec (ttl.Do zero k fn) s)) !! k' = ttl.data (cache s) !! k' /\
  ttl.ttl (cache (exec (ttl.Do zero k fn) s)) = ttl.ttl (cache s).
Proof.
  intros Hne. unfold exec. destruct (snd (eval (ttl.Get zero k) s)) eqn:Hg.
  - rewrite (ttl_facts.ttl_Do_hit zero s k fn Hg). cbn [snd].
    rewrite ttl_facts.cache_Get. split; reflexivity.
  - rewrite (ttl_facts.ttl_Do_miss zero s k fn Hg).
    destruct (fn (world s)) as [[v [err|]] w']; cbn [fst snd];
      [split; reflexivity|].
    rewrite ttl_facts.exec_Set. cbn [cache ttl.data ttl.ttl].
    split; [|reflexivity]. apply lookup_insert_ne. congruence.
Qed.

(** X7. [Do] memoizes within the ttl: after a [Do(k, fn)] that missed and
    whose producer succeeded with [v], a [Do(k, fn2)] whose first clock
    reading is no later than the ttl after the start of the first returns
    [(v, nil)] without calling [fn2], and leaves the store as it was. *)
Theorem Do_memoizes_within_ttl s k (fn fn2 : Producer W V E) v (d : N) :
  snd (eval (ttl.Get zero k) s) = false ->
  fst (fn (world s)) = (v, None) ->
  let s' := exec (ttl.Do zero k fn) s in
  now (clock (later d s')) <= now (clock s) + ttl.ttl (cache s) ->
  eval (ttl.Do zero k fn2) (later d s') = (v, None) /\
  world (exec (ttl.Do zero k fn2) (later d s')) = world s' /\
  cache (exec (ttl.Do zero k fn2) (later d s')) = cache s'.
Proof.
  intros Hmiss Hfn s' Hnow.
  assert (eval (ttl.Get zero k) (later d s') = (v, true)) as Hget.
  { revert Hnow. unfold s', exec.
    rewrite (ttl_facts.ttl_Do_miss zero s k fn Hmiss).
    pose proof (ttl_facts.now_Do_miss zero s k) as Hle.
    destruct (fn (world s)) as [[v1 [e1|]] w1]; cbn [fst snd] in *;
      [discriminate|]. injection Hfn as ->.
    set (sf := mkMachine (cache s) _ w1). fold (exec (ttl.Set_ k v) sf).
    intros Hnow.
    apply (ttl_facts.Get_after_write zero _ k v _ d
             (ttl_facts.data_Set_same sf k v)).
    change (now (clock sf)) with
      (now (tick (clock (exec (ttl.unsafeGet zero k)
                           (exec (ttl.Get zero k) s))))).
    change (ttl.ttl (cache sf)) with (ttl.ttl (cache s)). lia. }
  assert (snd (eval (ttl.Get zero k) (later d s')) = true) as Hhit
    by (rewrite Hget; reflexivity).
  unfold eval at 1, exec at 1 2.
  rewrite (ttl_facts.ttl_Do_hit zero _ k fn2 Hhit), Hget. cbn [fst snd].
  split; [reflexivity|].
  split; [exact (ttl_facts.world_Get zero (later d s') k)
         |exact (ttl_facts.cache_Get zero (later d s') k)].
Qed.

(** X8. With a zero or negative ttl [Do] never memoizes: after a [Do(k, fn)]
    that missed and whose producer succeeded, a [Do(k, fn2)] at any strictly
    later clock reading calls [fn2] again and returns its pair. *)
Theorem Do_recomputes_without_ttl s k (fn fn2 : Producer W V E) v (d : N) :
  ttl.ttl (cache s) <= 0 ->
  snd (eval (ttl.Get zero k) s) = false ->
  fst (fn (world s)) = (v, None) ->
  let s' := exec (ttl.Do zero k fn) s in
  now (clock s') < now (clock (later d s')) ->
  eval (ttl.Do zero k fn2) (later d s') = fst (fn2 (world s')) /\
  world (exec (ttl.Do zero k fn2) (later d s')) = snd (fn2 (world s')).
Proof.
  intros Httl Hmiss Hfn s' Hnow.
  assert (eval (ttl.Get zero k) (later d s') = (zero, false)) as Hget.
  { revert Hnow. unfold s', exec.
    rewrite (ttl_facts.ttl_Do_miss zero s k fn Hmiss).
    destruct (fn (world s)) as [[v1 [e1|]] w1]; cbn [fst snd] in *;
      [discriminate|]. injection Hfn as ->.
    set (sf := mkMachine (cache s) _ w1). fold (exec (ttl.Set_ k v) sf).
    intros Hnow.
    apply (ttl_facts.Get_after_write zero _ k v _ d
             (ttl_facts.data_Set_same sf k v)).
    change (ttl.ttl (cache sf)) with (ttl.ttl (cache s)).
    assert (now (clock sf) <= now (clock (exec (ttl.Set_ k v) sf))) as Hle
      by (rewrite ttl_facts.exec_Set; apply now_tick).
    lia. }
  assert (snd (eval (ttl.Get zero k) (later d s')) = false) as Hmiss'
    by (rewrite Hget; reflexivity).
  unfold eval at 1, exec at 1.
  rewrite (ttl_facts.ttl_Do_miss zero _ k fn2 Hmiss').
  change (world (later d s')) with (world s').
  destruct (fn2 (world s')) as [[v2 [e2|]] w2]; split; reflexivity.
Qed.

Lemma Sets_keep_entries s (seq : list (K * V)) k0 :
  is_Some (ttl.data (cache s) !! k0) ->
  is_Some (ttl.data (cache
             (exec (for_range seq (fun k v => ttl.Set_ k v)) s)) !! k0).
Proof.
  revert s. induction seq as [|[k v] seq IH]; intros s Hk; [exact Hk|].
  rewrite for_range_cons. apply IH. rewrite ttl_facts.exec_Set.
  cbn [cache ttl.data]. apply lookup_insert_is_Some'. right. exact Hk.
Qed.

(** X9. No method changes the ttl the store was built with, and no method
    but [Delete] takes an entry out of the map: a key that has an entry,
    expired or not, still has one after [Get], [Set], [SetFromIter],
    [SetFromMap] and [Do]. *)
Theorem ttl_is_fixed_and_entries_stay s0 s1 :
  (exists k, s1 = exec (ttl.Get zero k) s0) \/
  (exists k v, s1 = exec (ttl.Set_ k v) s0) \/
  (exists seq, s1 = exec (ttl.SetFromIter seq) s0) \/
  (exists pick m, s1 = exec (ttl.SetFromMap pick m) s0) \/
  (exists k (fn : Producer W V E), s1 = exec (ttl.Do zero k fn) s0) ->
  ttl.ttl (cache s1) = ttl.ttl (cache s0) /\
  (forall k, ttl.ttl (cache (exec (ttl.Delete k) s0)) = ttl.ttl (cache s0)) /\
  forall k0, is_Some (ttl.data (cache s0) !! k0) ->
             is_Some (ttl.data (cache s1) !! k0).
Proof.
  intros Hop.
  enough (ttl.ttl (cache s1) = ttl.ttl (cache s0) /\
          forall k0, is_Some (ttl.data (cache s0) !! k0) ->
                     is_Some (ttl.data (cache s1) !! k0)) as [Httl Hkeep]
    by (split; [exact Httl|split; [reflexivity|exact Hkeep]]).
  destruct Hop as [(k & ->)|[(k & v & ->)|[(seq & ->)|[(pick & m & ->)|
    (k & fn & ->)]]]].
  - rewrite ttl_facts.cache_Get. split; [reflexivity|]. intros k0 Hk0. exact Hk0.
  - split; [reflexivity|]. intros k0 Hk0.
    apply (Sets_keep_entries s0 [(k, v)] k0 Hk0).
  - split; [apply (ttl_facts.ttl_Sets s0 seq)|]. intros k0.
    apply (Sets_keep_entries s0 seq k0).
  - split; [apply (ttl_facts.ttl_Sets s0 (maps_All pick m))|]. intros k0.
    apply (Sets_keep_entries s0 (maps_All pick m) k0).
  - unfold exec. destruct (snd (eval (ttl.Get zero k) s0)) eqn:Hg.
    + rewrite (ttl_facts.ttl_Do_hit zero s0 k fn Hg). cbn [snd].
      rewrite ttl_facts.cache_Get. split; [reflexivity|]. intros k0 Hk0.
      exact Hk0.
    + rewrite (ttl_facts.ttl_Do_miss zero s0 k fn Hg).
      destruct (fn (world s0)) as [[v [err|]] w']; cbn [fst snd].
      * split; [reflexivity|]. intros k0 Hk0. exact Hk0.
      * split; [reflexivity|]. intros k0 Hk0.
        rewrite ttl_facts.exec_Set. cbn [cache ttl.data].
        apply lookup_insert_is_Some'. right. exact Hk0.
Qed.

(** X10. [Delete(k)] undoes [Set(k, v)] on a key that had no entry: the map
    and the ttl are again what they were before the [Set]. *)
Theorem Delete_undoes_Set_of_new_key s k v :
  ttl.data (cache s) !! k = None ->
  cache (exec (ttl.Delete k) (exec (ttl.Set_ k v) s)) = cache s.
Proof.
  intros Hk. rewrite exec_Delete, ttl_facts.exec_Set.
  cbn [cache ttl.data ttl.ttl]. rewrite (delete_insert_id _ _ _ Hk).
  destruct (cache s); reflexivity.
Qed.

End ttl_more.

Section ttl_instances.

Let store (d : time.Duration) : Machine (ttl.Cache string Z) nat :=
  mkMachine (ttl.New d) (mkClock 100 (fun _ => 3%N) 0) 0%nat.
Let working : Producer nat Z string := fun n => ((7, None), S n).
Let other : Producer nat Z string := fun n => ((8, None), S n).

Example Delete_removes_witness :
  let s := exec (ttl.Set_ "b" 2) (exec (ttl.Set_ "a" 1) (store 50)) in
  eval (ttl.Get 0 "a") s = (1, true) /\
  eval (ttl.Get 0 "a") (later 1 (exec (ttl.Delete "a") s)) = (0, false) /\
  eval (ttl.Get 0 "b") (later 1 (exec (ttl.Delete "a") s)) = (2, true).
Proof.
  intros s. split; [reflexivity|].
  destruct (Delete_removes_only_its_key (W:=nat) 0 s "a")
    as (_ & _ & _ & _ & Hgone & Hother).
  split; [exact (Hgone 1%N)|].
  destruct (Hother "b") as [_ Hget]; [discriminate|].
  rewrite (Hget 1%N). reflexivity.
Defined.

Example Delete_missing_key_witness :
  ttl.Delete "a" (store 50) = (tt, store 50).
Proof.
  apply (proj1 (Delete_missing_key_is_noop (V:=Z) (W:=nat) (store 50) "a")).
  reflexivity.
Defined.

Example expiry_bound_witness :
  eval (ttl.Get 0 "k") (later 7 (exec (ttl.Set_ "k" 1) (store 10))) = (1, true) /\
  eval (ttl.Get 0 "k")
    (exec (ttl.Set_ "k" 1)
       (mkMachine (ttl.New 0) (mkClock 100 (fun _ => 0%N) 0) 0%nat))
  = (1, true).
Proof.
  split.
  - apply (expiry_bound_is_inclusive (W:=nat) 0 (store 10) "k" 1 7). reflexivity.
  - apply (expiry_bound_is_inclusive (W:=nat) 0
             (mkMachine (ttl.New 0) (mkClock 100 (fun _ => 0%N) 0) 0%nat)
             "k" 1 0).
    reflexivity.
Defined.

Example Get_is_read_only_witness :
  ttl.Get 0 "a" (store 50) = ((0, false), store 50) /\
  steps (clock (exec (ttl.Get 0 "a") (exec (ttl.Set_ "a" 1) (store 50)))) = 2%nat.
Proof.
  destruct (Get_is_read_only (W:=nat) 0 (store 50) "a") as (_ & _ & Hnone & _).
  destruct (Get_is_read_only (W:=nat) 0 (exec (ttl.Set_ "a" 1) (store 50)) "a")
    as (_ & _ & _ & Hsome).
  split; [apply Hnone; reflexivity|].
  rewrite Hsome; [reflexivity|]. eexists. reflexivity.
Defined.

Example Set_writes_only_its_key_witness :
  let s := exec (ttl.Set_ "a" 1) (store 50) in
  ttl.data (cache (exec (ttl.Set_ "b" 2) s)) !! "b"
  = Some (ttl.mkEntry 2 153) /\
  ttl.data (cache (exec (ttl.Set_ "b" 2) s)) !! "a"
  = Some (ttl.mkEntry 1 150).
Proof.
  intros s.
  destruct (Set_writes_only_its_key (W:=nat) 0 s "b" 2 "a")
    as (Hown & _ & Hk & _); [discriminate|].
  split; [exact Hown|]. rewrite Hk. reflexivity.
Defined.

Example Do_writes_only_its_key_witness :
  let s := exec (ttl.Set_ "a" 1) (store 50) in
  ttl.data (cache (exec (ttl.Do 0 "b" working) s)) !! "a"
  = Some (ttl.mkEntry 1 150).
Proof.
  intros s.
  destruct (Do_writes_only_its_key 0 s "b" working "a") as (Hk & _);
    [discriminate|].
  rewrite Hk. reflexivity.
Defined.

Example Do_memoizes_witness :
  eval (ttl.Do 0 "k" other) (later 40 (exec (ttl.Do 0 "k" working) (store 50)))
  = (7, None) /\
  world (exec (ttl.Do 0 "k" other)
           (later 40 (exec (ttl.Do 0 "k" working) (store 50)))) = 1%nat.
Proof.
  destruct (Do_memoizes_within_ttl 0 (store 50) "k" working other 7 40)
    as (Hr & Hw & _); try reflexivity.
  - vm_compute. discriminate.
  - split; [exact Hr|exact Hw].
Defined.

Example Do_recomputes_witness :
  eval (ttl.Do 0 "k" other) (exec (ttl.Do 0 "k" working) (store 0)) = (8, None) /\
  world (exec (ttl.Do 0 "k" other) (exec (ttl.Do 0 "k" working) (store 0)))
  = 2%nat.
Proof.
  destruct (Do_recomputes_without_ttl 0 (store 0) "k" working other 7 1)
    as (Hr & Hw).
  - vm_compute. discriminate.
  - reflexivity.
  - reflexivity.
  - vm_compute. reflexivity.
  - split.
    + transitivity
        (eval (ttl.Do 0 "k" other)
           (later 1 (exec (ttl.Do 0 "k" working) (store 0))));
        [reflexivity|exact Hr].
    + transitivity
        (world (exec (ttl.Do 0 "k" other)
           (later 1 (exec (ttl.Do 0 "k" working) (store 0)))));
        [reflexivity|exact Hw].
Defined.

Example ttl_is_fixed_witness :
  let s := exec (ttl.Set_ "a" 1) (store 5) in
  let s1 := exec (ttl.Get 0 "a") (later 60 s) in
  eval (ttl.Get 0 "a") (later 60 s) = (0, false) /\
  ttl.ttl (cache s1) = 5 /\ is_Some (ttl.data (cache s1) !! "a").
Proof.
  intros s s1. split; [reflexivity|].
  destruct (ttl_is_fixed_and_entries_stay (E:=string) 0 (later 60 s) s1)
    as (Httl & _ & Hkeep).
  - left. exists "a". reflexivity.
  - split; [exact Httl|]. apply Hkeep. eexists. reflexivity.
Defined.

Example Delete_undoes_Set_witness :
  cache (exec (ttl.Delete "a") (exec (ttl.Set_ "a" 1) (store 50)))
  = cache (store 50).
Proof.
  apply (Delete_undoes_Set_of_new_key (W:=nat) (store 50) "a" 1). reflexivity.
Defined.

End ttl_instances.
End ttl_more.

(** ** The recency store: finding, deleting and ordering *)
Module lru_more.
Section lru_more.

Context `{Countable K} {V E W : Type}.
Variable zero : V.

Implicit Types (s : Machine (lru.Cache K V) W) (k : K) (v : V).
Implicit Types (l : list (lru.cacheEntry K V)) (x : lru.cacheEntry K V).

Local Abbreviation first k l := (list_find (fun x => lru.key x = k) l).
Local Abbreviation keys l := (lru.key <$> l).
Local Abbreviation ents s := (lru.entries (cache s)).
Local Abbreviation others k l := (filter (fun x => lru.key x <> k) l).

Lemma others_delete k l i x :
  l !! i = Some x -> lru.key x = k -> others k (delete i l) = others k l.
Proof.
  revert i. induction l as [|y l IH]; intros [|i] Hi Hk; simpl in *;
    try discriminate.
  - injection Hi as ->. rewrite filter_cons_False by tauto. reflexivity.
  - rewrite !filter_cons. rewrite (IH i Hi Hk). reflexivity.
Qed.

Lemma others_all k l : k ∉ keys l -> others k l = l.
Proof.
  induction l as [|y l IH]; intros Hk; [reflexivity|].
  rewrite fmap_cons, not_elem_of_cons in Hk. destruct Hk as [Hne Hk].
  rewrite filter_cons_True by congruence. rewrite (IH Hk). reflexivity.
Qed.

Lemma delete_first_NoDup k l i x :
  NoDup (keys l) -> first k l = Some (i, x) ->
  (k ∉ keys (delete i l)) /\ NoDup (keys (delete i l)).
Proof.
  intros Hnd Hf.
  pose proof (lru_facts.first_lookup _ _ _ _ Hf) as Hi.
  pose proof (lru_facts.first_key _ _ _ _ Hf) as Hk.
  rewrite (delete_Permutation _ _ _ Hi), fmap_cons, Hk in Hnd.
  apply NoDup_cons in Hnd. exact Hnd.
Qed.

Lemma ents_Set_new s k v :
  k ∉ keys (ents s) -> ents (exec (lru.Set_ k v) s) = lru.mkEntry k v :: ents s.
Proof.
  intros Hks. unfold exec. rewrite lru_facts.Set_run.
  cbn [snd cache lru.entries].
  apply lru_facts.first_None in Hks. rewrite Hks. reflexivity.
Qed.

(** X11. [findEntry] returns the first node whose key is [k]: the handle it
    returns names a node of the chain with that key and carries its payload,
    and no node before it has the key; it returns nil exactly when no node
    of the chain has the key. *)
Theorem findEntry_is_first_match (c : lru.Cache K V) k :
  match lru.findEntry c k with
  | Some e =>
      lru.entries c !! container_list.pos e = Some (container_list.Value e) /\
      lru.key (container_list.Value e) = k /\
      forall j x, (j < container_list.pos e)%nat ->
                  lru.entries c !! j = Some x -> lru.key x <> k
  | None => forall x, x ∈ lru.entries c -> lru.key x <> k
  end.
Proof.
  rewrite lru_facts.findEntry_first.
  destruct (first k (lru.entries c)) as [[i x]|] eqn:Hf; cbn [fmap option_fmap option_map].
  - apply list_find_Some in Hf as (Hi & Hk & Hbefore).
    cbn [container_list.pos container_list.Value fst snd].
    split; [exact Hi|]. split; [exact Hk|].
    intros j y Hj Hy. exact (Hbefore j y Hy Hj).
  - apply list_find_None in Hf. rewrite Forall_forall in Hf. exact Hf.
Qed.

(** X12. A [Get(k)] that finds the key moves its node to the front and
    nothing else: the first node of the chain is then the node of [k] with
    the value returned, the chain has the same nodes as before, and the
    other nodes are in the order they were in.  A [Get(k)] that does not
    find the key leaves the machine untouched. *)
Theorem Get_moves_its_node_to_front s k :
  (forall v, eval (lru.Get zero k) s = (v, true) ->
     let s' := exec (lru.Get zero k) s in
     (exists x, head (ents s') = Some x /\ lru.key x = k /\ lru.value x = v) /\
     ents s' ≡ₚ ents s /\
     others k (ents s') = others k (ents s) /\
     clock s' = clock s /\ world s' = world s) /\
  (snd (eval (lru.Get zero k) s) = false ->
     lru.Get zero k s = ((zero, false), s)).
Proof.
  split; [|apply lru_facts.Get_miss_run].
  intros v. unfold eval, exec. rewrite lru_facts.Get_run.
  destruct (first k (ents s)) as [[i x]|] eqn:Hf; cbn [fst snd]; [|discriminate].
  intros [= <-]. cbn [cache clock world lru.entries].
  pose proof (lru_facts.first_lookup _ _ _ _ Hf) as Hi.
  pose proof (lru_facts.first_key _ _ _ _ Hf) as Hk.
  split; [exists x; auto|].
  split; [symmetry; apply delete_Permutation, Hi|].
  split; [|split; reflexivity].
  rewrite filter_cons_False by tauto. apply (others_delete k _ i x Hi Hk).
Qed.

(** X13. [Set(k, v)] leaves the node [(k, v)] at the front of the chain and
    the other nodes in the order they were in.  On a key the chain has, the
    chain keeps its length; on a key it has not, the chain is the old one
    with the new node in front.  The clock and the caller's state are not
    touched. *)
Theorem Set_puts_its_node_in_front s k v :
  let s' := exec (lru.Set_ k v) s in
  head (ents s') = Some (lru.mkEntry k v) /\
  others k (ents s') = others k (ents s) /\
  (k ∈ keys (ents s) -> length (ents s') = length (ents s)) /\
  (k ∉ keys (ents s) -> ents s' = lru.mkEntry k v :: ents s) /\
  clock s' = clock s /\ world s' = world s.
Proof.
  intros s'. unfold s', exec. rewrite lru_facts.Set_run.
  cbn [snd cache clock world lru.entries].
  split; [reflexivity|].
  destruct (first k (ents s)) as [[i x]|] eqn:Hf.
  - pose proof (lru_facts.first_lookup _ _ _ _ Hf) as Hi.
    pose proof (lru_facts.first_key _ _ _ _ Hf) as Hk.
    split; [rewrite filter_cons_False by (cbn; tauto);
            apply (others_delete k _ i x Hi Hk)|].
    split.
    + intros _. rewrite (delete_Permutation _ _ _ Hi) at 2. reflexivity.
    + split; [|split; reflexivity].
      intros Hno. apply lru_facts.first_None in Hno. congruence.
  - split; [rewrite filter_cons_False by (cbn; tauto); reflexivity|].
    split; [|split; [reflexivity|split; reflexivity]].
    intros Hin. apply lru_facts.first_None in Hf. contradiction.
Qed.

(** X14. In a chain without a repeated key, [Delete(k)] removes the node of
    [k] and nothing else: the chain is the old one without the nodes of key
    [k], the others in their order; it still has no repeated key; every
    later [Get(k)] returns [(zero, false)]; and a [Get] of another key
    returns what it returned before. *)
Theorem Delete_removes_its_node s k :
  NoDup (keys (ents s)) ->
  let s' := exec (lru.Delete k) s in
  ents s' = others k (ents s) /\
  (k ∉ keys (ents s')) /\
  NoDup (keys (ents s')) /\
  (forall d : N, eval (lru.Get zero k) (later d s') = (zero, false)) /\
  (forall k', k' <> k ->
     eval (lru.Get zero k') s' = eval (lru.Get zero k') s) /\
  clock s' = clock s /\ world s' = world s.
Proof.
  intros Hnd s'. unfold s', exec. rewrite lru_facts.Delete_run. cbn [snd].
  destruct (first k (ents s)) as [[i x]|] eqn:Hf.
  - cbn [cache clock world lru.entries].
    pose proof (lru_facts.first_lookup _ _ _ _ Hf) as Hi.
    pose proof (lru_facts.first_key _ _ _ _ Hf) as Hk.
    destruct (delete_first_NoDup k _ i x Hnd Hf) as [Hgone Hnd'].
    split; [rewrite <- (others_delete k _ i x Hi Hk), (others_all k _ Hgone);
            reflexivity|].
    split; [exact Hgone|]. split; [exact Hnd'|].
    split; [|split; [|split; reflexivity]].
    + intros d. rewrite lru_facts.lru_eval_Get. cbn [later cache lru.entries].
      apply lru_facts.first_None in Hgone. rewrite Hgone. reflexivity.
    + intros k' Hne. rewrite !lru_facts.lru_eval_Get. cbn [cache lru.entries].
      rewrite (lru_facts.first_delete_other k' _ i x Hi) by congruence.
      reflexivity.
  - pose proof Hf as Hno. apply lru_facts.first_None in Hno.
    split; [rewrite (others_all k _ Hno); reflexivity|].
    split; [exact Hno|]. split; [exact Hnd|].
    split; [|split; [reflexivity|split; reflexivity]].
    intros d. rewrite lru_facts.lru_eval_Get. cbn [later cache].
    rewrite Hf. reflexivity.
Qed.

(** X15. [Delete(k)] of a key the chain has not leaves the machine
    untouched, and [Delete(k)] right after [Set(k, v)] of such a key gives
    back the machine as it was before the [Set]. *)
Theorem Delete_of_absent_key_is_noop s k v :
  k ∉ keys (ents s) ->
  lru.Delete k s = (tt, s) /\
  exec (lru.Delete k) (exec (lru.Set_ k v) s) = s.
Proof.
  intros Hno. pose proof Hno as Hf. apply lru_facts.first_None in Hf. split.
  - rewrite lru_facts.Delete_run, Hf. reflexivity.
  - unfold exec. rewrite lru_facts.Delete_run, lru_facts.Set_run, Hf.
    cbn [snd cache clock world lru.entries]. simpl.
    rewrite decide_True by reflexivity. simpl.
    destruct s as [[l] ck w]. reflexivity.
Qed.

(** X16. No method brings a second node with one key into the chain: if
    the keys of the chain are distinct, they still are after [Get], [Set],
    [Delete], [SetFromIter], [SetFromMap] and [Do]. *)
Theorem keys_stay_distinct s0 s1 :
  NoDup (keys (ents s0)) ->
  (exists k, s1 = exec (lru.Get zero k) s0) \/
  (exists k v, s1 = exec (lru.Set_ k v) s0) \/
  (exists k, s1 = exec (lru.Delete k) s0) \/
  (exists seq, s1 = exec (lru.SetFromIter seq) s0) \/
  (exists pick m, s1 = exec (lru.SetFromMap pick m) s0) \/
  (exists k (fn : Producer W V E), s1 = exec (lru.Do zero k fn) s0) ->
  NoDup (keys (ents s1)).
Proof.
  intros Hnd [(k & ->)|[(k & v & ->)|[(k & ->)|[(seq & ->)|[(pick & m & ->)|
    (k & fn & ->)]]]]].
  - rewrite lru_facts.keys_Get. exact Hnd.
  - apply lru_facts.NoDup_Set, Hnd.
  - unfold exec. rewrite lru_facts.Delete_run. cbn [snd].
    destruct (first k (ents s0)) as [[i x]|] eqn:Hf; [|exact Hnd].
    apply (delete_first_NoDup k _ i x Hnd Hf).
  - apply (lru_facts.NoDup_Sets s0 seq Hnd).
  - apply (lru_facts.NoDup_Sets s0 (maps_All pick m) Hnd).
  - unfold exec. destruct (snd (eval (lru.Get zero k) s0)) eqn:Hg.
    + rewrite (lru_facts.lru_Do_hit zero s0 k fn Hg). cbn [snd].
      rewrite lru_facts.keys_Get. exact Hnd.
    + rewrite (lru_facts.lru_Do_miss zero s0 k fn Hg).
      destruct (fn (world s0)) as [[v [err|]] w']; cbn [fst snd]; [exact Hnd|].
      apply (lru_facts.NoDup_Set (mkMachine (cache s0) (tick (clock s0)) w')).
      exact Hnd.
Qed.

(** X17. [SetFromIter] of pairs with distinct keys, none of them in the
    chain, puts their nodes in front of the old chain in the reverse of the
    order it went through them: the last pair is the front. *)
Theorem SetFromIter_stacks_new_keys s (seq : list (K * V)) :
  NoDup seq.*1 ->
  (forall k, k ∈ seq.*1 -> k ∉ keys (ents s)) ->
  ents (exec (lru.SetFromIter seq) s)
  = reverse ((fun p => lru.mkEntry (fst p) (snd p)) <$> seq) ++ ents s.
Proof.
  revert s. induction seq as [|[k v] seq IH]; intros s Hnd Hfresh;
    [reflexivity|].
  rewrite fmap_cons in Hnd. cbn [fst] in Hnd.
  apply NoDup_cons in Hnd as [Hk Hnd].
  assert (k ∉ keys (ents s)) as Hks by (apply Hfresh; left).
  change (lru.SetFromIter ((k, v) :: seq))
    with (for_range ((k, v) :: seq) (fun k v => lru.Set_ (V:=V) (W:=W) k v)).
  rewrite for_range_cons. cbv beta.
  change (for_range seq (fun k v => lru.Set_ k v)) with (lru.SetFromIter (W:=W) seq).
  rewrite IH.
  - rewrite fmap_cons, reverse_cons, <- app_assoc. cbn [fst snd app].
    f_equal. exact (ents_Set_new s k v Hks).
  - exact Hnd.
  - intros k' Hk'. rewrite lru_facts.keys_Set_new by exact Hks.
    rewrite not_elem_of_cons. split.
    + intros ->. contradiction.
    + apply Hfresh. right. exact Hk'.
Qed.

(** X18. [Do] memoizes: after a [Do(k, fn)] that missed and whose producer
    succeeded with [v], the node [(k, v)] is the front of the chain, and
    every later [Do(k, fn2)] returns [(v, nil)] without calling [fn2]. *)
Theorem Do_memoizes_for_good s k (fn fn2 : Producer W V E) v (d : N) :
  snd (eval (lru.Get zero k) s) = false ->
  fst (fn (world s)) = (v, None) ->
  let s' := exec (lru.Do zero k fn) s in
  head (ents s') = Some (lru.mkEntry k v) /\
  eval (lru.Do zero k fn2) (later d s') = (v, None) /\
  world (exec (lru.Do zero k fn2) (later d s')) = world s'.
Proof.
  intros Hmiss Hfn s'.
  assert (ents s' = lru.mkEntry k v :: ents s) as Hents.
  { unfold s', exec. rewrite (lru_facts.lru_Do_miss zero s k fn Hmiss).
    destruct (fn (world s)) as [[v1 [e1|]] w1]; cbn [fst snd] in *;
      [discriminate|]. injection Hfn as ->.
    apply (ents_Set_new (mkMachine (cache s) (tick (clock s)) w1) k v).
    apply (lru_facts.Get_miss_notin zero s k). exact Hmiss. }
  split; [rewrite Hents; reflexivity|].
  assert (eval (lru.Get zero k) (later d s') = (v, true)) as Hget.
  { rewrite lru_facts.lru_eval_Get.
    change (ents (later d s')) with (ents s'). rewrite Hents. simpl.
    rewrite decide_True by reflexivity. reflexivity. }
  assert (snd (eval (lru.Get zero k) (later d s')) = true) as Hhit
    by (rewrite Hget; reflexivity).
  unfold eval at 1, exec at 1.
  rewrite (lru_facts.lru_Do_hit zero _ k fn2 Hhit), Hget. cbn [fst snd].
  split; [reflexivity|].
  unfold exec. rewrite lru_facts.Get_run.
  destruct (first k (ents (later d s'))) as [[i x]|]; reflexivity.
Qed.

(** X19. What [Get] returns for a key does not depend on what was done to
    another key: [Get(k')] returns the same before and after [Get(k)],
    [Set(k, v)], [Delete(k)] and [Do(k, fn)], for every [k'] other than
    [k]. *)
Theorem other_keys_are_not_disturbed s0 s1 k k' :
  k' <> k ->
  (s1 = exec (lru.Get zero k) s0) \/
  (exists v, s1 = exec (lru.Set_ k v) s0) \/
  (s1 = exec (lru.Delete k) s0) \/
  (exists fn : Producer W V E, s1 = exec (lru.Do zero k fn) s0) ->
  eval (lru.Get zero k') s1 = eval (lru.Get zero k') s0.
Proof.
  intros Hne Hop. rewrite !lru_facts.lru_eval_Get.
  enough (snd <$> first k' (ents s1) = snd <$> first k' (ents s0)) as ->
    by reflexivity.
  destruct Hop as [->|[(v & ->)|[->|(fn & ->)]]].
  - apply lru_facts.first_Get.
  - apply lru_facts.first_Set_other. exact Hne.
  - unfold exec. rewrite lru_facts.Delete_run. cbn [snd].
    destruct (first k (ents s0)) as [[i x]|] eqn:Hf; [|reflexivity].
    cbn [cache lru.entries].
    apply (lru_facts.first_delete_other k' _ i x).
    + exact (lru_facts.first_lookup _ _ _ _ Hf).
    + rewrite (lru_facts.first_key _ _ _ _ Hf). congruence.
  - unfold exec. destruct (snd (eval (lru.Get zero k) s0)) eqn:Hg.
    + rewrite (lru_facts.lru_Do_hit zero s0 k fn Hg). cbn [snd].
      apply lru_facts.first_Get.
    + rewrite (lru_facts.lru_Do_miss zero s0 k fn Hg).
      destruct (fn (world s0)) as [[v [err|]] w']; cbn [fst snd];
        [reflexivity|].
      apply (lru_facts.first_Set_other
               (mkMachine (cache s0) (tick (clock s0)) w')). exact Hne.
Qed.

(** *** The store as a finite map *)

(** The map a chain stands for: under each key, the value of the first node
    with that key. *)
Local Abbreviation view s :=
  (list_to_map ((fun x => (lru.key x, lru.value x)) <$> ents s) : gmap K V).

Lemma view_lookup s k :
  view s !! k = lru.value <$> (snd <$> first k (ents s)).
Proof.
  induction (ents s) as [|x l IH]; [apply lookup_empty|].
  rewrite fmap_cons, list_to_map_cons, lookup_insert. simpl.
  destruct (decide (lru.key x = k)); [reflexivity|].
  rewrite IH. destruct (first k l) as [[i y]|]; reflexivity.
Qed.

Lemma view_ext s s' :
  (forall k, snd <$> first k (ents s') = snd <$> first k (ents s)) ->
  view s' = view s.
Proof.
  intros Hall. apply map_eq. intros k. rewrite !view_lookup, Hall. reflexivity.
Qed.

Lemma view_Set s k v : view (exec (lru.Set_ k v) s) = <[k:=v]> (view s).
Proof.
  apply map_eq. intros k'. rewrite lookup_insert, !view_lookup.
  destruct (decide (k = k')) as [<-|Hne].
  - rewrite lru_facts.first_Set_same. reflexivity.
  - rewrite lru_facts.first_Set_other by congruence. reflexivity.
Qed.

(** X20. The recency store is a finite map kept in a chain.  Read the chain
    as the map that has, under each key, the value of its first node: a new
    store is the empty map, [Get] is lookup and changes no binding, [Set] is
    insertion, [Delete] is deletion when the keys of the chain are distinct,
    [SetFromIter] is insertion of its pairs in their order, and [Do] is
    lookup when the key is bound, insertion of the producer's value when it
    is not and the producer succeeds, and no change when it fails. *)
Theorem recency_store_is_a_finite_map s k v (d : time.Duration)
    (seq : list (K * V)) (fn : Producer W V E) :
  (list_to_map ((fun x => (lru.key x, lru.value x))
                  <$> lru.entries (lru.New (K:=K) (V:=V) d)) : gmap K V) = ∅ /\
  eval (lru.Get zero k) s
  = match view s !! k with Some v => (v, true) | None => (zero, false) end /\
  view (exec (lru.Get zero k) s) = view s /\
  view (exec (lru.Set_ k v) s) = <[k:=v]> (view s) /\
  (NoDup (keys (ents s)) -> view (exec (lru.Delete k) s) = delete k (view s)) /\
  view (exec (lru.SetFromIter seq) s)
  = foldl (fun m p => <[fst p := snd p]> m) (view s) seq /\
  view (exec (lru.Do zero k fn) s)
  = match view s !! k, fst (fn (world s)) with
    | None, (v, None) => <[k:=v]> (view s)
    | _, _ => view s
    end.
Proof.
  split; [reflexivity|].
  split.
  { rewrite lru_facts.lru_eval_Get, view_lookup.
    destruct (first k (ents s)) as [[i x]|]; reflexivity. }
  split; [apply view_ext; intros k'; apply lru_facts.first_Get|].
  split; [apply view_Set|].
  split.
  { intros Hnd. apply map_eq. intros k'. rewrite lookup_delete, !view_lookup.
    unfold exec. rewrite lru_facts.Delete_run. cbn [snd].
    destruct (first k (ents s)) as [[i x]|] eqn:Hf.
    - cbn [cache lru.entries].
      destruct (delete_first_NoDup k _ i x Hnd Hf) as [Hgone _].
      destruct (decide (k = k')) as [<-|Hne].
      + apply lru_facts.first_None in Hgone. rewrite Hgone. reflexivity.
      + rewrite (lru_facts.first_delete_other k' _ i x); [reflexivity| |].
        * exact (lru_facts.first_lookup _ _ _ _ Hf).
        * rewrite (lru_facts.first_key _ _ _ _ Hf). exact Hne.
    - destruct (decide (k = k')) as [<-|Hne]; [|reflexivity].
      rewrite Hf. reflexivity. }
  split.
  { revert s. induction seq as [|[k1 v1] seq IH]; intros s; [reflexivity|].
    change (lru.SetFromIter ((k1, v1) :: seq))
      with (for_range ((k1, v1) :: seq)
              (fun k v => lru.Set_ (V:=V) (W:=W) k v)).
    rewrite for_range_cons. cbv beta.
    change (for_range seq (fun k v => lru.Set_ k v))
      with (lru.SetFromIter (W:=W) seq).
    rewrite IH, view_Set. reflexivity. }
  rewrite view_lookup. unfold exec.
  destruct (snd (eval (lru.Get zero k) s)) eqn:Hg.
  - rewrite (lru_facts.lru_Do_hit zero s k fn Hg). cbn [snd].
    rewrite lru_facts.lru_eval_Get in Hg.
    destruct (first k (ents s)) as [[i x]|] eqn:Hf; [|discriminate].
    cbn [fmap option_fmap option_map].
    apply view_ext. intros k'. apply lru_facts.first_Get.
  - rewrite (lru_facts.lru_Do_miss zero s k fn Hg).
    rewrite lru_facts.lru_eval_Get in Hg.
    destruct (first k (ents s)) as [[i x]|] eqn:Hf; [discriminate|].
    cbn [fmap option_fmap option_map].
    destruct (fn (world s)) as [[v1 [e1|]] w1]; cbn [fst snd]; [reflexivity|].
    apply (view_Set (mkMachine (cache s) (tick (clock s)) w1)).
Qed.

End lru_more.

Section lru_instances.

Let empty : Machine (lru.Cache string Z) nat :=
  mkMachine (lru.New 0) (mkClock 100 (fun _ => 1%N) 0) 0%nat.
Let abc : Machine (lru.Cache string Z) nat :=
  exec (lru.SetFromIter [("a", 1); ("b", 2); ("c", 3)]) empty.
Let working : Producer nat Z string := fun n => ((7, None), S n).
Let other : Producer nat Z string := fun n => ((8, None), S n).

Let distinct (s : Machine (lru.Cache string Z) nat) : Prop :=
  NoDup (lru.key <$> lru.entries (cache s)).

Lemma abc_distinct : distinct abc.
Proof. apply (bool_decide_unpack _). vm_compute. exact I. Defined.

Lemma d_not_in_abc : "d" ∉ lru.key <$> lru.entries (cache abc).
Proof. apply (bool_decide_unpack _). vm_compute. exact I. Defined.

Example Get_moves_to_front_witness :
  lru.key <$> lru.entries (cache abc) = ["c"; "b"; "a"] /\
  lru.key <$> lru.entries (cache (exec (lru.Get 0 "a") abc)) = ["a"; "c"; "b"] /\
  filter (fun x => lru.key x <> "a") (lru.entries (cache (exec (lru.Get 0 "a") abc)))
  = filter (fun x => lru.key x <> "a") (lru.entries (cache abc)) /\
  lru.Get 0 "d" abc = ((0, false), abc).
Proof.
  destruct (Get_moves_its_node_to_front 0 abc "a") as [Hhit _].
  destruct (Get_moves_its_node_to_front 0 abc "d") as [_ Hmiss].
  destruct (Hhit 1) as (_ & _ & Hothers & _); [reflexivity|].
  split; [reflexivity|]. split; [reflexivity|].
  split; [exact Hothers|]. apply Hmiss. reflexivity.
Defined.

Example Set_puts_in_front_witness :
  length (lru.entries (cache (exec (lru.Set_ "a" 9) abc))) = 3%nat /\
  lru.entries (cache (exec (lru.Set_ "d" 4) abc))
  = lru.mkEntry "d" 4 :: lru.entries (cache abc).
Proof.
  destruct (Set_puts_its_node_in_front abc "a" 9) as (_ & _ & Hold & _).
  destruct (Set_puts_its_node_in_front abc "d" 4) as (_ & _ & _ & Hnew & _).
  split.
  - rewrite Hold; [reflexivity|].
    apply (bool_decide_unpack _). vm_compute. exact I.
  - apply Hnew. exact d_not_in_abc.
Defined.

Example Delete_removes_its_node_witness :
  lru.key <$> lru.entries (cache (exec (lru.Delete "b") abc)) = ["c"; "a"] /\
  eval (lru.Get 0 "b") (later 5 (exec (lru.Delete "b") abc)) = (0, false) /\
  eval (lru.Get 0 "a") (exec (lru.Delete "b") abc) = (1, true).
Proof.
  destruct (Delete_removes_its_node 0 abc "b" abc_distinct)
    as (_ & _ & _ & Hgone & Hother & _).
  split; [reflexivity|]. split; [exact (Hgone 5%N)|].
  rewrite (Hother "a"); [reflexivity|discriminate].
Defined.

Example Delete_of_absent_key_witness :
  lru.Delete "d" abc = (tt, abc) /\
  exec (lru.Delete "d") (exec (lru.Set_ "d" 4) abc) = abc.
Proof. exact (Delete_of_absent_key_is_noop abc "d" 4 d_not_in_abc). Defined.

Example keys_stay_distinct_witness :
  distinct (exec (lru.Delete "b") abc) /\
  distinct (exec (lru.Do 0 "d" working) abc).
Proof.
  split.
  - apply (keys_stay_distinct (E:=string) 0 abc _ abc_distinct).
    right. right. left. exists "b". reflexivity.
  - apply (keys_stay_distinct (E:=string) 0 abc _ abc_distinct).
    do 5 right. exists "d", working. reflexivity.
Defined.

Example SetFromIter_stacks_witness :
  lru.entries (cache (exec (lru.SetFromIter [("d", 4); ("e", 5)]) abc))
  = [lru.mkEntry "e" 5; lru.mkEntry "d" 4] ++ lru.entries (cache abc).
Proof.
  apply (SetFromIter_stacks_new_keys abc [("d", 4); ("e", 5)]).
  - apply (bool_decide_unpack _). vm_compute. exact I.
  - intros k Hk. apply (bool_decide_unpack _).
    apply list_elem_of_In in Hk. destruct Hk as [<-|[<-|[]]];
      vm_compute; exact I.
Defined.

Example Do_memoizes_for_good_witness :
  eval (lru.Do 0 "d" other) (later 1000 (exec (lru.Do 0 "d" working) abc))
  = (7, None) /\
  world (exec (lru.Do 0 "d" other) (later 1000 (exec (lru.Do 0 "d" working) abc)))
  = 1%nat.
Proof.
  destruct (Do_memoizes_for_good 0 abc "d" working other 7 1000) as (_ & Hr & Hw);
    [reflexivity|reflexivity|].
  split; [exact Hr|exact Hw].
Defined.

Example other_keys_witness :
  eval (lru.Get 0 "a") (exec (lru.Delete "b") abc) = (1, true) /\
  eval (lru.Get 0 "a") (exec (lru.Do 0 "d" working) abc) = (1, true).
Proof.
  split.
  - rewrite (other_keys_are_not_disturbed (E:=string) 0 abc _ "b" "a");
      [reflexivity|discriminate|]. right. right. left. reflexivity.
  - rewrite (other_keys_are_not_disturbed (E:=string) 0 abc _ "d" "a");
      [reflexivity|discriminate|]. do 3 right. exists working. reflexivity.
Defined.

Example finite_map_witness :
  (list_to_map ((fun x => (lru.key x, lru.value x))
                  <$> lru.entries (cache (exec (lru.Delete "b") abc)))
   : gmap string Z)
  = delete "b" (list_to_map ((fun x => (lru.key x, lru.value x))
                               <$> lru.entries (cache abc))).
Proof.
  destruct (recency_store_is_a_finite_map 0 abc "b" 0 0 [] working)
    as (_ & _ & _ & _ & Hdel & _).
  apply Hdel. exact abc_distinct.
Defined.

End lru_instances.
End lru_more.
